(** * Chicken Road Tracker: the client-side live-data layer

    A shallow embedding of the three stateful pieces of the front-end
    - [useWebSocket]  (frontend/src/hooks/useWebSocket.js),
    - [LiveFeed]      (unnamed/part_001, which HomePage.jsx imports as
                       ../components/LiveFeed),
    - [useStats]      (unnamed/part_002, imported as ../hooks/useStats),
    together with the parts of [gameConfig] they read.

    React state cells and refs become fields of a record, every callback
    of the source becomes a function on that record, and the browser
    (sockets, timers, fetch results, random draws) is an explicit
    environment: a store of sockets, a store of timers, and events that
    carry what the browser delivers. *)

From Stdlib Require Import ZArith QArith Qround Qpower Lia Lqa List String.
From stdpp Require Import base option list strings sorting pretty.
Import ListNotations.

Local Open Scope Z_scope.
Local Set Warnings "-register-all".

(** ** JavaScript library functions used by the sources *)

Module Js.

(** [Array.prototype.slice(start, end)]: negative indices count from the
    end, both bounds are clamped to the length. *)
Definition slice {A : Type} (start stop : Z) (l : list A) : list A :=
  let len := Z.of_nat (length l) in
  let k := if start <? 0 then Z.max (len + start) 0 else Z.min start len in
  let final := if stop <? 0 then Z.max (len + stop) 0 else Z.min stop len in
  take (Z.to_nat (final - k)) (drop (Z.to_nat k) l).

(** A decimal string with [digits] fractional digits, as produced by
    [Number.prototype.toFixed]: it denotes [scaled / 10^digits]. *)
Record Fixed := mkFixed { digits : nat; scaled : Z }.


(** [x.toFixed(d)]: the integer [n] with [n / 10^d] closest to [x], the
    larger one on a tie; a negative [x] is formatted as minus the
    result for [-x].  Numbers are exact rationals here. *)
Definition toFixed (x : Q) (d : nat) : Fixed :=
  let p := inject_Z (10 ^ Z.of_nat d) in
  let half := (1 # 2)%Q in
  if Qle_bool 0 x
  then mkFixed d (Qfloor (x * p + half))
  else mkFixed d (- Qfloor ((- x) * p + half)).

(** Strict comparison [a > b] on numbers. *)
Definition gt (a b : Q) : bool := negb (Qle_bool a b).

End Js.

(** ** frontend/src/config/gameConfig.js (fields read by the hooks) *)

Record UiConfig := mkUiConfig {
  historyLimit : Z;
  liveFeedLimit : Z;
  refreshInterval : Z
}.

Record GameConfig := mkGameConfig {
  maxLanes : Z;
  ui : UiConfig
}.

Definition gameConfig : GameConfig :=
  {| maxLanes := 5;
     ui := {| historyLimit := 100; liveFeedLimit := 20; refreshInterval := 5000 |} |}.

(** ** frontend/src/hooks/useWebSocket.js *)

Module UseWebSocket.

(** [WebSocket.readyState] *)
Inductive ReadyState := CONNECTING | OPEN | CLOSING | CLOSED.

#[global] Instance ReadyState_eq_dec : EqDecision ReadyState.
Proof. solve_decision. Defined.

(** What the hook writes to a socket: the reply to a ping, or a message
    handed to [sendMessage] (already serialised). *)
Inductive Frame := Pong | ClientMessage (body : string).

(** A socket of the browser: its ready state and the frames sent on it.
    Every socket the hook constructs carries the same four handlers. *)
Record Socket := mkSocket { readyState : ReadyState; sent : list Frame }.

(** A [setTimeout] registration: its delay in milliseconds and whether
    it is still waiting (neither fired nor cleared). *)
Record Timer := mkTimer { delay : Z; pending : bool }.

Definition maxReconnectAttempts : nat := 5.

Definition msgMaxAttempts : string :=
  "Max reconnection attempts reached. Please refresh the page.".
Definition msgConnectionError : string := "Connection error occurred".
Definition msgFailedToConnect : string := "Failed to establish connection".

Section Hook.

(** JSON values that are not arrays (and have no [slice] method). *)
Context {A : Type}.

(** The result of [JSON.parse] on a payload. *)
Inductive JsValue := JAtom (a : A) | JArray (items : list JsValue).

(** A parsed inbound message [{type, payload}]. *)
Record Data := mkData { type : string; payload : JsValue }.

(** The cells of the hook ([useState], [useRef]) and the browser
    objects they point into.  A socket or timer is named by its
    position in the store; nothing is ever removed from a store. *)
Record State := mkState {
  crossings : list JsValue;
  connected : bool;
  error : option string;
  wsRef : option nat;
  reconnectTimeoutRef : option nat;
  reconnectAttemptsRef : nat;
  sockets : list Socket;
  timers : list Timer
}.

Definition setCrossings (v : list JsValue) (st : State) : State :=
  mkState v (connected st) (error st) (wsRef st) (reconnectTimeoutRef st)
          (reconnectAttemptsRef st) (sockets st) (timers st).
Definition setConnected (b : bool) (st : State) : State :=
  mkState (crossings st) b (error st) (wsRef st) (reconnectTimeoutRef st)
          (reconnectAttemptsRef st) (sockets st) (timers st).
Definition setError (e : option string) (st : State) : State :=
  mkState (crossings st) (connected st) e (wsRef st) (reconnectTimeoutRef st)
          (reconnectAttemptsRef st) (sockets st) (timers st).
Definition set_wsRef (r : option nat) (st : State) : State :=
  mkState (crossings st) (connected st) (error st) r (reconnectTimeoutRef st)
          (reconnectAttemptsRef st) (sockets st) (timers st).
Definition set_reconnectTimeoutRef (r : option nat) (st : State) : State :=
  mkState (crossings st) (connected st) (error st) (wsRef st) r
          (reconnectAttemptsRef st) (sockets st) (timers st).
Definition set_reconnectAttemptsRef (n : nat) (st : State) : State :=
  mkState (crossings st) (connected st) (error st) (wsRef st)
          (reconnectTimeoutRef st) n (sockets st) (timers st).
Definition set_sockets (l : list Socket) (st : State) : State :=
  mkState (crossings st) (connected st) (error st) (wsRef st)
          (reconnectTimeoutRef st) (reconnectAttemptsRef st) l (timers st).
Definition set_timers (l : list Timer) (st : State) : State :=
  mkState (crossings st) (connected st) (error st) (wsRef st)
          (reconnectTimeoutRef st) (reconnectAttemptsRef st) (sockets st) l.

(** The state of the hook before its mount effect has run. *)
Definition fresh : State := mkState [] false None None None 0 [] [].

(** *** Browser primitives *)

Definition readyStateOf (s : nat) (st : State) : option ReadyState :=
  readyState <$> sockets st !! s.

(** The frames sent so far on socket [s]. *)
Definition sentOn (s : nat) (st : State) : list Frame :=
  default [] (sent <$> sockets st !! s).

(** [wsRef.current?.readyState === WebSocket.OPEN] *)
Definition currentIsOpen (st : State) : bool :=
  match wsRef st with
  | Some c => bool_decide (readyStateOf c st = Some OPEN)
  | None => false
  end.

Definition setReadyState (s : nat) (r : ReadyState) (st : State) : State :=
  set_sockets (alter (fun k => mkSocket r (sent k)) s (sockets st)) st.

(** [new WebSocket(url)]: a socket in state CONNECTING, named by the
    next free position. *)
Definition newWebSocket (st : State) : nat * State :=
  (length (sockets st), set_sockets (sockets st ++ [mkSocket CONNECTING []]) st).

(** [ws.send(frame)] on an open socket. *)
Definition ws_send (s : nat) (f : Frame) (st : State) : State :=
  set_sockets (alter (fun k => mkSocket (readyState k) (sent k ++ [f])) s (sockets st)) st.

(** [ws.close(code, reason)]: starts the closing handshake unless the
    socket is already closing or closed; the close event comes later. *)
Definition ws_close (s : nat) (st : State) : State :=
  match readyStateOf s st with
  | Some CONNECTING | Some OPEN => setReadyState s CLOSING st
  | _ => st
  end.

(** [setTimeout(callback, ms)] returns the id of the new timer. *)
Definition setTimeout (ms : Z) (st : State) : nat * State :=
  (length (timers st), set_timers (timers st ++ [mkTimer ms true]) st).

(** [clearTimeout(id)] *)
Definition clearTimeout (t : nat) (st : State) : State :=
  set_timers (alter (fun k => mkTimer (delay k) false) t (timers st)) st.

(** *** The callbacks of the hook *)

Section Callbacks.

Variable cfg : GameConfig.

(** [connect]; [ctor_ok] tells whether [new WebSocket] returns
    ([true]) or throws ([false]). *)
Definition connect (ctor_ok : bool) (st : State) : State :=
  if (maxReconnectAttempts <=? reconnectAttemptsRef st)%nat
  then setError (Some msgMaxAttempts) st
  else if ctor_ok
       then let '(id, st1) := newWebSocket st in set_wsRef (Some id) st1
       else setError (Some msgFailedToConnect) st.

Definition onopen (st : State) : State :=
  set_reconnectAttemptsRef 0 (setError None (setConnected true st)).

(** [onmessage]; [None] stands for an [event.data] on which
    [JSON.parse] (or reading [data.type]) throws. *)
Definition onmessage (d : option Data) (st : State) : State :=
  match d with
  | None => st
  | Some data =>
    if (type data =? "crossing")%string then
      setCrossings
        (Js.slice 0 (liveFeedLimit (ui cfg)) (payload data :: crossings st)) st
    else if (type data =? "history")%string then
      match payload data with
      | JArray items => setCrossings (Js.slice 0 (liveFeedLimit (ui cfg)) items) st
      | JAtom _ => st
      end
    else if (type data =? "stats")%string then st
    else if (type data =? "ping")%string then
      match wsRef st with
      | Some c => if currentIsOpen st then ws_send c Pong st else st
      | None => st
      end
    else st
  end.

Definition onerror (st : State) : State :=
  setError (Some msgConnectionError) st.

(** The delay computed in [onclose]. *)
Definition backoffDelay (attempts : nat) : Z :=
  Z.min (1000 * 2 ^ Z.of_nat attempts) 30000.

Definition onclose (st : State) : State :=
  let st1 := setConnected false st in
  if (reconnectAttemptsRef st1 <? maxReconnectAttempts)%nat
  then let '(id, st2) := setTimeout (backoffDelay (reconnectAttemptsRef st1)) st1 in
       set_reconnectTimeoutRef (Some id) st2
  else st1.

(** The function handed to [setTimeout] in [onclose]. *)
Definition reconnectCallback (ctor_ok : bool) (st : State) : State :=
  connect ctor_ok (set_reconnectAttemptsRef (reconnectAttemptsRef st + 1) st).

Definition disconnect (st : State) : State :=
  let st1 := match reconnectTimeoutRef st with
             | Some t => clearTimeout t st
             | None => st
             end in
  let st2 := match wsRef st1 with
             | Some s => set_wsRef None (ws_close s st1)
             | None => st1
             end in
  setConnected false st2.

Definition sendMessage (message : string) (st : State) : State :=
  match wsRef st with
  | Some c => if currentIsOpen st then ws_send c (ClientMessage message) st else st
  | None => st
  end.

Definition clearCrossings (st : State) : State := setCrossings [] st.

(** Whether a delivered message is a well-formed ['ping']. *)
Definition isPing (d : option Data) : bool :=
  match d with
  | Some data => (type data =? "ping")%string
  | None => false
  end.

(** A run of ['crossing'] messages, oldest first, through [onmessage]. *)
Definition crossingMessage (p : JsValue) : option Data :=
  Some (mkData "crossing" p).

Definition receiveCrossings (ps : list JsValue) (st : State) : State :=
  foldl (fun s p => onmessage (crossingMessage p) s) st ps.

(** *** What can happen to a mounted hook

    Calls of the returned functions, and events the browser
    delivers: a socket event reaches the handlers of the socket it
    names, a timer fires only while it is pending. *)
Inductive Event :=
| EvConnect (ctor_ok : bool)
| EvDisconnect
| EvSend (message : string)
| EvClear
| EvOpen (s : nat)
| EvMessage (s : nat) (d : option Data)
| EvError (s : nat)
| EvClose (s : nat)
| EvTimeout (t : nat) (ctor_ok : bool).

Definition timerPending (t : nat) (st : State) : bool :=
  match timers st !! t with
  | Some k => pending k
  | None => false
  end.

Definition step (e : Event) (st : State) : option State :=
  match e with
  | EvConnect ok => Some (connect ok st)
  | EvDisconnect => Some (disconnect st)
  | EvSend m => Some (sendMessage m st)
  | EvClear => Some (clearCrossings st)
  | EvOpen s =>
    match readyStateOf s st with
    | Some CONNECTING => Some (onopen (setReadyState s OPEN st))
    | _ => None
    end
  | EvMessage s d =>
    match readyStateOf s st with
    | Some OPEN => Some (onmessage d st)
    | _ => None
    end
  | EvError s =>
    match readyStateOf s st with
    | Some CONNECTING | Some OPEN | Some CLOSING => Some (onerror st)
    | _ => None
    end
  | EvClose s =>
    match readyStateOf s st with
    | Some CONNECTING | Some OPEN | Some CLOSING =>
      Some (onclose (setReadyState s CLOSED st))
    | _ => None
    end
  | EvTimeout t ok =>
    if timerPending t st
    then Some (reconnectCallback ok (clearTimeout t st))
    else None
  end.

Fixpoint run (evs : list Event) (st : State) : option State :=
  match evs with
  | [] => Some st
  | e :: evs' =>
    match step e st with
    | Some st' => run evs' st'
    | None => None
    end
  end.

(** The hook after its mount effect: [connect()] called once. *)
Definition mounted (ctor_ok : bool) : State := connect ctor_ok fresh.

(** Sockets that are not closed: the channels that exist. *)
Definition isLive (k : Socket) : bool :=
  match readyState k with
  | CLOSED => false
  | _ => true
  end.

Definition liveChannels (st : State) : nat :=
  length (filter (fun k => isLive k = true) (sockets st)).

Definition pendingTimers (st : State) : list Timer :=
  filter (fun k => pending k = true) (timers st).

(** Events that are no call of [connect] or [disconnect]. *)
Definition automatic (e : Event) : bool :=
  match e with
  | EvConnect _ | EvDisconnect => false
  | _ => true
  end.

(** Close events since the last open event (or since the start). *)
Fixpoint streakFrom (n : nat) (evs : list Event) : nat :=
  match evs with
  | [] => n
  | EvOpen _ :: evs' => streakFrom 0 evs'
  | EvClose _ :: evs' => streakFrom (S n) evs'
  | _ :: evs' => streakFrom n evs'
  end.

Definition streak (evs : list Event) : nat := streakFrom 0 evs.

(** *** Shapes of the state in a run without calls of [connect]
    or [disconnect]: after [k] closes in a row the hook either
    holds one live socket (the current one) and no timer, or waits
    on one retry timer with every socket closed, or is at rest. *)
Definition closedExcept (c : option nat) (st : State) : Prop :=
  forall i r, readyStateOf i st = Some r -> Some i <> c -> r = CLOSED.

Definition noTimerPending (st : State) : Prop :=
  forall t, timerPending t st = false.

Inductive Phase (k : nat) (st : State) : Prop :=
| Live (c : nat) :
    wsRef st = Some c ->
    closedExcept (Some c) st ->
    readyStateOf c st = Some CONNECTING \/ readyStateOf c st = Some OPEN ->
    noTimerPending st ->
    reconnectAttemptsRef st = k ->
    (k < maxReconnectAttempts)%nat ->
    Phase k st
| Waiting (t : nat) :
    closedExcept None st ->
    timerPending t st = true ->
    (forall i, i <> t -> timerPending i st = false) ->
    k = S (reconnectAttemptsRef st) ->
    (reconnectAttemptsRef st < maxReconnectAttempts)%nat ->
    Phase k st
| AtRest :
    closedExcept None st ->
    noTimerPending st ->
    Phase k st.

End Callbacks.
End Hook.

Arguments JsValue : clear implicits.
Arguments Data : clear implicits.
Arguments State : clear implicits.
Arguments Event : clear implicits.

End UseWebSocket.

(** ** The LiveFeed component (unnamed/part_001) *)

Module LiveFeed.

Inductive Outcome := crossed | hit.

#[global] Instance Outcome_eq_dec : EqDecision Outcome.
Proof. solve_decision. Defined.

(** A crossing as shown in the feed.  [timestamp] is the instant in
    milliseconds that the ISO string encodes; [multiplier] is [None]
    where the source would store [undefined]. *)
Record Crossing := mkCrossing {
  id : string;
  timestamp : Z;
  lanesCrossed : Z;
  outcome : Outcome;
  multiplier : option Q;
  betAmount : Js.Fixed
}.

(** What one call of [generateMockCrossing] reads from the browser:
    the three [Math.random()] draws that matter, the clock, and the id
    string built from the clock and a fourth draw. *)
Record Draw := mkDraw {
  randLane : Q;
  randHit : Q;
  randBet : Q;
  now : Z;
  newId : string
}.

(** Every [Math.random()] result lies in [0, 1). *)
Definition unit_interval (r : Q) : Prop := (0 <= r)%Q /\ (r < 1)%Q.

Definition multiplierTable : list Q := [12 # 10; 15 # 10; 2; 35 # 10; 8]%Q.

(** [table[i]] for an integer [i]: [undefined] outside the table. *)
Definition index (table : list Q) (i : Z) : option Q :=
  if i <? 0 then None else table !! Z.to_nat i.

(** [lanesCrossed === 0 ? 0 : [1.2, 1.5, 2.0, 3.5, 8.0][lanesCrossed - 1]] *)
Definition tableMultiplier (lanesCrossed : Z) : option Q :=
  if lanesCrossed =? 0 then Some 0%Q else index multiplierTable (lanesCrossed - 1).

Definition generateMockCrossing (d : Draw) : Crossing :=
  let lanesCrossed := Qfloor (randLane d * 6) in
  let wasHit := (lanesCrossed <? 5) && Js.gt (randHit d) (7 # 10) in
  let multiplier := tableMultiplier lanesCrossed in
  {| id := newId d;
     timestamp := now d;
     lanesCrossed := lanesCrossed;
     outcome := if wasHit then hit else crossed;
     multiplier := if wasHit then Some 0%Q else multiplier;
     betAmount := Js.toFixed (randBet d * 10 + (1 # 2)) 2 |}.

(** The invariant of the data model (section 3 of the specification),
    with [maxLanes] as configured. *)
Definition crossing_invariant (cfg : GameConfig) (c : Crossing) : Prop :=
  match outcome c with
  | crossed => lanesCrossed c = maxLanes cfg /\
               exists m, multiplier c = Some m /\ (0 < m)%Q
  | hit => lanesCrossed c < maxLanes cfg /\
           exists m, multiplier c = Some m /\ (m == 0)%Q
  end.

(** [list.sort((a, b) => new Date(b.timestamp) - new Date(a.timestamp))]:
    a stable sort, newest first.  Elements are inserted from the last to
    the first, each in front of the first one that is not newer. *)
Fixpoint insertNewestFirst (c : Crossing) (l : list Crossing) : list Crossing :=
  match l with
  | [] => [c]
  | x :: l' => if timestamp x <=? timestamp c then c :: l
               else x :: insertNewestFirst c l'
  end.

Definition sortNewestFirst (l : list Crossing) : list Crossing :=
  foldr insertNewestFirst [] l.

(** Props and cells of the component, and the demo interval it has
    registered, if any, with its period in milliseconds. *)
Record State := mkState {
  externalCrossings : option (list Crossing);
  connected : bool;
  crossings : list Crossing;
  isPaused : bool;
  interval : option Q
}.

Definition setCrossings (v : list Crossing) (st : State) : State :=
  mkState (externalCrossings st) (connected st) v (isPaused st) (interval st).
Definition setIsPaused (b : bool) (st : State) : State :=
  mkState (externalCrossings st) (connected st) (crossings st) b (interval st).
Definition set_interval (i : option Q) (st : State) : State :=
  mkState (externalCrossings st) (connected st) (crossings st) (isPaused st) i.
Definition set_externalCrossings (v : option (list Crossing)) (st : State) : State :=
  mkState v (connected st) (crossings st) (isPaused st) (interval st).
Definition set_connected (b : bool) (st : State) : State :=
  mkState (externalCrossings st) b (crossings st) (isPaused st) (interval st).

(** What the seeding effect reads: for each of the 15 generated
    crossings its draw and the back-dated timestamp that replaces the
    generated one. *)
Definition SeedEnv : Type := nat -> Draw * Z.

Section Component.

Variable cfg : GameConfig.

(** First effect, dependencies [externalCrossings]. *)
Definition seedEffect (env : SeedEnv) (st : State) : State :=
  let empty := match externalCrossings st with
               | None => true
               | Some l => (length l =? 0)%nat
               end in
  if empty then
    let initialData :=
      map (fun i => let '(d, ts) := env i in
                    let c := generateMockCrossing d in
                    mkCrossing (id c) ts (lanesCrossed c) (outcome c)
                               (multiplier c) (betAmount c))
          (seq 0 15) in
    setCrossings (sortNewestFirst initialData) st
  else setCrossings (default [] (externalCrossings st)) st.

(** The callback of the demo interval. *)
Definition tick (d : Draw) (st : State) : State :=
  setCrossings
    (Js.slice 0 (liveFeedLimit (ui cfg)) (generateMockCrossing d :: crossings st)) st.

(** Second effect, dependencies [connected, isPaused]: the clean-up
    of the previous run clears its interval, then a new interval is
    registered unless connected or paused.  [r] is the draw that
    jitters the period. *)
Definition tickEffect (r : Q) (st : State) : State :=
  let st1 := set_interval None st in
  if connected st1 || isPaused st1 then st1
  else set_interval (Some (3000 + r * 2000)%Q) st1.

(** First render: both effects run. *)
Definition mount (ext : option (list Crossing)) (conn : bool)
           (env : SeedEnv) (r : Q) : State :=
  tickEffect r (seedEffect env (mkState ext conn [] false None)).

Inductive Event :=
| NewCrossings (ext : option (list Crossing)) (env : SeedEnv)
| NewConnected (conn : bool) (r : Q)
| TogglePause (r : Q)
| Tick (d : Draw).

(** A re-render runs an effect when one of its dependencies changed;
    the interval callback runs only while an interval is registered. *)
Definition step (e : Event) (st : State) : option State :=
  match e with
  | NewCrossings ext env => Some (seedEffect env (set_externalCrossings ext st))
  | NewConnected conn r =>
    if bool_decide (conn = connected st) then Some st
    else Some (tickEffect r (set_connected conn st))
  | TogglePause r => Some (tickEffect r (setIsPaused (negb (isPaused st)) st))
  | Tick d =>
    match interval st with
    | Some _ => Some (tick d st)
    | None => None
    end
  end.

Fixpoint run (evs : list Event) (st : State) : option State :=
  match evs with
  | [] => Some st
  | e :: evs' =>
    match step e st with
    | Some st' => run evs' st'
    | None => None
    end
  end.

(** The interval callback run once per draw, oldest first. *)
Definition ticks (ds : list Draw) (st : State) : State :=
  foldl (fun s d => tick d s) st ds.

(** After every render the interval exists only while neither
    connected nor paused. *)
Definition settled (st : State) : Prop :=
  connected st || isPaused st = true -> interval st = None.


End Component.

End LiveFeed.

(** ** The useStats hook (unnamed/part_002) *)

Module UseStats.

(** What [await fetch(url)] followed by [await response.json()] can
    yield: a rejected fetch, or a response with its [ok] flag, its
    status as printed, and a body that parses or fails to parse. *)
Record Response (T : Type) := mkResponse {
  ok : bool;
  status : string;
  json : string + T
}.
Arguments mkResponse {T}.
Arguments ok {T}.
Arguments status {T}.
Arguments json {T}.

Inductive Fetched (T : Type) :=
| Rejected (message : string)
| Resolved (response : Response T).
Arguments Rejected {T}.
Arguments Resolved {T}.

(** The body of each [try] block up to the first state update: the
    decoded data, or the message of the error that reaches [catch]. *)
Definition decode {T : Type} (f : Fetched T) : string + T :=
  match f with
  | Rejected message => inl message
  | Resolved response =>
    if negb (ok response)
    then inl ("HTTP error! status: " ++ status response)%string
    else json response
  end.

(** The message with which a fetch ends in [catch], if it does. *)
Definition failure {T : Type} (f : Fetched T) : option string :=
  match decode f with
  | inl message => Some message
  | inr _ => None
  end.

(** The fields of a statistics snapshot that the hook reads. *)
Record Stats := mkStats {
  totalCrossings : Q;
  successfulCrossings : Q;
  totalRounds : Q;
  totalLanesCrossed : Q
}.

Section Hook.

(** Per-lane statistics and history entries are passed through. *)
Context {LaneStats History : Type}.

Record State := mkState {
  stats : option Stats;
  laneStats : option LaneStats;
  history : list History;
  loading : bool;
  error : option string
}.

Definition setStats (v : option Stats) (st : State) : State :=
  mkState v (laneStats st) (history st) (loading st) (error st).
Definition setLaneStats (v : option LaneStats) (st : State) : State :=
  mkState (stats st) v (history st) (loading st) (error st).
Definition setHistory (v : list History) (st : State) : State :=
  mkState (stats st) (laneStats st) v (loading st) (error st).
Definition setLoading (b : bool) (st : State) : State :=
  mkState (stats st) (laneStats st) (history st) b (error st).
Definition setError (e : option string) (st : State) : State :=
  mkState (stats st) (laneStats st) (history st) (loading st) e.

Definition initial : State := mkState None None [] true None.

(** [fetchStats], from the point where the request has settled. *)
Definition fetchStats (f : Fetched Stats) (st : State) : State :=
  match decode f with
  | inr data => setError None (setStats (Some data) st)
  | inl message => setError (Some message) st
  end.

Definition fetchLaneStats (f : Fetched LaneStats) (st : State) : State :=
  match decode f with
  | inr data => setLaneStats (Some data) st
  | inl _ => st
  end.

Definition fetchHistory (f : Fetched (list History)) (st : State) : State :=
  match decode f with
  | inr data => setHistory data st
  | inl _ => st
  end.

(** [refetch]: the loading flag is raised, the three fetches settle
    (they write different cells, so one order is written here), and the
    flag is lowered. *)
Definition refetch (fs : Fetched Stats) (fl : Fetched LaneStats)
           (fh : Fetched (list History)) (st : State) : State :=
  setLoading false (fetchHistory fh (fetchLaneStats fl (fetchStats fs (setLoading true st)))).

(** The body of the refresh interval. *)
Definition refresh (fs : Fetched Stats) (fl : Fetched LaneStats) (st : State) : State :=
  fetchLaneStats fl (fetchStats fs st).

End Hook.

Arguments State : clear implicits.


(** A derived field: the number [0], a [toFixed] string, or the
    rendering of a non-finite number. *)
Inductive Derived :=
| DNumber (q : Q)
| DFixed (f : Js.Fixed)
| DNonFinite.


(** [q.toFixed(d)] for a quotient [q] that may be non-finite. *)
Definition toFixed (q : option Q) (d : nat) : Derived :=
  match q with
  | Some v => DFixed (Js.toFixed v d)
  | None => DNonFinite
  end.




End UseStats.

(** ** Invariants of the hook used below *)

Module HookInvariants.

(** The attempt counter is at most 5, and at 5 the terminal error is
    shown. *)
Definition ceilingKept {A : Type} (st : UseWebSocket.State A) : Prop :=
  (UseWebSocket.reconnectAttemptsRef st <= UseWebSocket.maxReconnectAttempts)%nat /\
  (UseWebSocket.reconnectAttemptsRef st = UseWebSocket.maxReconnectAttempts ->
   UseWebSocket.error st = Some UseWebSocket.msgMaxAttempts).

End HookInvariants.

(** ** The LiveFeed component: the rest of unnamed/part_001 *)

Module LiveFeedView.

(** [getLaneIndicators]: one entry per lane of the row of five dots,
    [true] where the dot is drawn as crossed ([i < lanesCrossed]). *)
Definition getLaneIndicators (lanesCrossed : Z) : list bool :=
  map (fun i => Z.of_nat i <? lanesCrossed) (seq 0 5).

(** The local constant [initialData] of the seeding effect, before it
    is sorted. *)
Definition initialData (env : LiveFeed.SeedEnv) : list LiveFeed.Crossing :=
  map (fun i => let '(d, ts) := env i in
                let c := LiveFeed.generateMockCrossing d in
                LiveFeed.mkCrossing (LiveFeed.id c) ts (LiveFeed.lanesCrossed c)
                  (LiveFeed.outcome c) (LiveFeed.multiplier c) (LiveFeed.betAmount c))
      (seq 0 15).

(** The order the comparator of the seeding sort asks for: [a] may stand
    before [b] when [b] is not newer. *)
Definition notNewer (a b : LiveFeed.Crossing) : Prop :=
  LiveFeed.timestamp b <= LiveFeed.timestamp a.


(** The parent hands over at most [bound] crossings. *)
Definition externalWithin (bound : nat) (ext : option (list LiveFeed.Crossing)) : Prop :=
  match ext with
  | Some l => (length l <= bound)%nat
  | None => True
  end.

Definition eventWithin (bound : nat) (e : LiveFeed.Event) : Prop :=
  match e with
  | LiveFeed.NewCrossings ext _ => externalWithin bound ext
  | _ => True
  end.


End LiveFeedView.

(** ** useLaneAnalytics (unnamed/part_002, second hook) *)

Module UseLaneAnalytics.

(** The two fields of a crossing that the hook reads. *)
Record Crossing := mkCrossing { lanesCrossed : Z; outcome : string }.

(** One entry of [laneData]. *)
Record LaneDatum := mkLaneDatum {
  lane : Z;
  label : string;
  attempts : nat;
  success : nat;
  successRate : Q
}.

(** The object handed to [setAnalytics]; [overallSuccessRate] is its
    [successRate] field. *)
Record Analytics := mkAnalytics {
  laneData : list LaneDatum;
  totalCrossings : nat;
  successfulCrossings : nat;
  hitCount : Z;
  overallSuccessRate : Q;
  avgLanesCrossed : Q
}.

(** [(a / b) * 100] on counters. *)
Definition percentage (a b : nat) : Q :=
  (inject_Z (Z.of_nat a) / inject_Z (Z.of_nat b) * 100)%Q.

(** [laneData[i].attempts += 1]; [None] is the [TypeError] thrown when
    [laneData[i]] is [undefined]. *)
Definition incAttempts (i : nat) (ld : list LaneDatum) : option (list LaneDatum) :=
  _ ← ld !! i;
  Some (alter (fun r => mkLaneDatum (lane r) (label r) (attempts r + 1) (success r)
                                    (successRate r)) i ld).

(** [laneData[i].success += 1] *)
Definition incSuccess (i : nat) (ld : list LaneDatum) : option (list LaneDatum) :=
  _ ← ld !! i;
  Some (alter (fun r => mkLaneDatum (lane r) (label r) (attempts r) (success r + 1)
                                    (successRate r)) i ld).

Section Hook.

Variable cfg : GameConfig.

(** [Array.from({ length: gameConfig.maxLanes }, (_, i) => ...)] *)
Definition emptyLaneData : list LaneDatum :=
  map (fun i => mkLaneDatum (Z.of_nat i + 1) ("Lane " +:+ pretty (Z.of_nat i + 1)) 0 0 0)
      (seq 0 (Z.to_nat (maxLanes cfg))).

(** [for (let i = 0; i < crossing.lanesCrossed; i++) { ... }] *)
Definition crossedLanes (lanes : Z) (ld : list LaneDatum) : option (list LaneDatum) :=
  foldl (fun (acc : option (list LaneDatum)) i => (acc ≫= incAttempts i) ≫= incSuccess i)
        (Some ld)
        (seq 0 (Z.to_nat lanes)).

(** The body of [crossings.forEach]. *)
Definition recordCrossing (ld : list LaneDatum) (c : Crossing) : option (list LaneDatum) :=
  ld1 ← crossedLanes (lanesCrossed c) ld;
  if (outcome c =? "hit")%string && (lanesCrossed c <? maxLanes cfg)
  then if lanesCrossed c <? 0 then None
       else incAttempts (Z.to_nat (lanesCrossed c)) ld1
  else Some ld1.

Definition recordAll (cs : list Crossing) (ld : list LaneDatum) : option (list LaneDatum) :=
  foldl (fun (acc : option (list LaneDatum)) c => acc ≫= fun l => recordCrossing l c)
        (Some ld) cs.

(** The body of [laneData.forEach] that fills in the rates. *)
Definition withRate (r : LaneDatum) : LaneDatum :=
  mkLaneDatum (lane r) (label r) (attempts r) (success r)
    (if (0 <? attempts r)%nat then percentage (success r) (attempts r) else 0).

Definition isCrossed (c : Crossing) : Prop := outcome c = "crossed".

(** [crossings.reduce((sum, c) => sum + c.lanesCrossed, 0)] *)
Definition totalLanes (cs : list Crossing) : Z :=
  foldl (fun sum c => sum + lanesCrossed c) 0 cs.

(** The effect of the hook.  The outer [None] is an exception thrown out
    of the effect; [Some None] is [setAnalytics(null)]. *)
Definition useLaneAnalytics (crossings : option (list Crossing)) : option (option Analytics) :=
  match crossings with
  | None | Some [] => Some None
  | Some cs =>
    ld ← recordAll cs emptyLaneData;
    let totalCrossings := length cs in
    let successfulCrossings := length (filter isCrossed cs) in
    let totalLanesCrossed := totalLanes cs in
    Some (Some {|
      laneData := map withRate ld;
      totalCrossings := totalCrossings;
      successfulCrossings := successfulCrossings;
      hitCount := Z.of_nat totalCrossings - Z.of_nat successfulCrossings;
      overallSuccessRate :=
        if (0 <? totalCrossings)%nat
        then percentage successfulCrossings totalCrossings else 0;
      avgLanesCrossed :=
        if (0 <? totalCrossings)%nat
        then (inject_Z totalLanesCrossed / inject_Z (Z.of_nat totalCrossings))%Q else 0
    |})
  end.

(** *** What the counters count *)

(** Crossings that got past lane [i + 1]. *)
Definition crossedBeyond (i : nat) (cs : list Crossing) : nat :=
  length (filter (fun c => Z.of_nat i < lanesCrossed c) cs).

(** Crossings that were hit in lane [i + 1]. *)
Definition hitAt (i : nat) (cs : list Crossing) : nat :=
  length (filter (fun c => outcome c = "hit" /\ lanesCrossed c = Z.of_nat i) cs).

(** Entry [i] of [laneData] after the crossings [cs] were recorded on
    top of [r]. *)
Definition seen (cs : list Crossing) (i : nat) (r : LaneDatum) : LaneDatum :=
  mkLaneDatum (lane r) (label r)
    (attempts r + crossedBeyond i cs + hitAt i cs)
    (success r + crossedBeyond i cs) (successRate r).

(** A crossing the loops can index: no more lanes than there are, and a
    hit not before the first lane. *)
Definition inRange (c : Crossing) : bool :=
  (lanesCrossed c <=? maxLanes cfg) &&
  (negb (outcome c =? "hit")%string || (0 <=? lanesCrossed c)).

End Hook.

End UseLaneAnalytics.

(** ** [utils/formatters] (unnamed/part_000) *)

Module Formatters.

(** What [formatTimeAgo] returns: a relative label, or the calendar date
    that [toLocaleDateString] renders. *)
Inductive TimeAgo :=
| Text (s : string)
| LocaleDate.

(** [formatTimeAgo(timestamp)], as a function of [now - date], the
    elapsed time in milliseconds of a valid date. *)
Definition formatTimeAgo (elapsed : Z) : TimeAgo :=
  let seconds := elapsed / 1000 in
  if seconds <? 5 then Text "just now" else
  if seconds <? 60 then Text (pretty seconds +:+ "s ago") else
  let minutes := seconds / 60 in
  if minutes <? 60 then Text (pretty minutes +:+ "m ago") else
  let hours := minutes / 60 in
  if hours <? 24 then Text (pretty hours +:+ "h ago") else
  let days := hours / 24 in
  if days <? 7 then Text (pretty days +:+ "d ago") else
  LocaleDate.

(** A JavaScript string as its sequence of code units. *)
Definition JsString := list Ascii.ascii.

(** [s.substring(start, end)]: both indices are clamped to the string
    and swapped when they are out of order. *)
Definition substring (start stop : Z) (s : JsString) : JsString :=
  let len := Z.of_nat (length s) in
  let a := Z.min (Z.max start 0) len in
  let b := Z.min (Z.max stop 0) len in
  take (Z.to_nat (Z.max a b - Z.min a b)) (drop (Z.to_nat (Z.min a b)) s).

(** [s.substring(start)] *)
Definition substringFrom (start : Z) (s : JsString) : JsString :=
  substring start (Z.of_nat (length s)) s.

Definition ellipsis : JsString := list_ascii_of_string "...".
Definition dash : JsString := list_ascii_of_string "-".

(** [truncateText(text, maxLength)] on a string; [!text] holds for the
    empty string. *)
Definition truncateText (text : JsString) (maxLength : Z) : JsString :=
  if (length text =? 0)%nat || (Z.of_nat (length text) <=? maxLength) then text
  else substring 0 maxLength text ++ ellipsis.

(** [formatRoundId(roundId)] on a string. *)
Definition formatRoundId (roundId : JsString) : JsString :=
  if (length roundId =? 0)%nat then dash
  else if Z.of_nat (length roundId) <=? 12 then roundId
  else substring 0 6 roundId ++ ellipsis
       ++ substringFrom (Z.of_nat (length roundId) - 4) roundId.

End Formatters.

(** ** [RoadCrossingSimulator] (frontend/src/components/RoadCrossingSimulator.jsx)

    The state cells of the component are the fields of [State]; the
    handlers are functions on it, and an event is a click or an input
    that the rendered controls let through.  Numbers are exact
    rationals. *)

Module RoadCrossingSimulator.

Inductive GameState := idle | playing | won | lost.

Record Stats := mkStats {
  games : Z;
  wins : Z;
  maxLane : Z;
  profit : Q
}.

Record Car := mkCar {
  position : Q;
  speed : Q;
  hasCar : bool
}.

Record State := mkState {
  lanes : Z;
  currentLane : Z;
  gameState : GameState;
  carPositions : list Car;
  betAmount : Q;
  stats : Stats
}.

Definition setLanes (v : Z) (st : State) : State :=
  mkState v (currentLane st) (gameState st) (carPositions st) (betAmount st) (stats st).
Definition setCurrentLane (v : Z) (st : State) : State :=
  mkState (lanes st) v (gameState st) (carPositions st) (betAmount st) (stats st).
Definition setGameState (v : GameState) (st : State) : State :=
  mkState (lanes st) (currentLane st) v (carPositions st) (betAmount st) (stats st).
Definition setCarPositions (v : list Car) (st : State) : State :=
  mkState (lanes st) (currentLane st) (gameState st) v (betAmount st) (stats st).
Definition setBetAmount (v : Q) (st : State) : State :=
  mkState (lanes st) (currentLane st) (gameState st) (carPositions st) v (stats st).
Definition setStats (f : Stats -> Stats) (st : State) : State :=
  mkState (lanes st) (currentLane st) (gameState st) (carPositions st) (betAmount st)
          (f (stats st)).

(** The [useState] initial values. *)
Definition initial : State :=
  mkState 5 0 idle [] 10 (mkStats 0 0 0 0).

Definition isPlaying (st : State) : bool :=
  match gameState st with playing => true | _ => false end.

(** [a < b] on numbers. *)
Definition lt (a b : Q) : bool := negb (Qle_bool b a).

(** One entry of the [laneData] table; [laneProfit] is its [profit]
    field. *)
Record LaneRow := mkLaneRow {
  lane : Z;
  probability : Q;
  multiplier : Q;
  laneProfit : Q;
  laneSurvival : Q
}.

(** The [survivalRate] of the [laneData] memo. *)
Definition tableSurvivalRate (currentLane : Z) : Q :=
  if currentLane <=? 3 then 8 # 10 else if currentLane <=? 6 then 7 # 10 else 6 # 10.

(** The [survivalRate] of [crossLane]. *)
Definition crossSurvivalRate (currentLane : Z) : Q :=
  if currentLane <? 3 then 8 # 10 else if currentLane <? 6 then 7 # 10 else 6 # 10.

Section Component.

(** The [rtp] prop. *)
Variable rtp : Q.

(** The [for] loop of [laneData]: [n] rounds are left, [lane] is the
    loop variable and [cumulativeProb] the accumulator. *)
Fixpoint laneLoop (betAmount survivalRate : Q) (n : nat) (lane : Z) (cumulativeProb : Q)
  : list LaneRow :=
  match n with
  | O => []
  | S n' =>
    let cumulativeProb := (cumulativeProb * survivalRate)%Q in
    let multiplier := ((1 / cumulativeProb) * (rtp / 100))%Q in
    mkLaneRow lane (cumulativeProb * 100)%Q multiplier
              (betAmount * (multiplier - 1))%Q (survivalRate * 100)%Q
    :: laneLoop betAmount survivalRate n' (lane + 1) cumulativeProb
  end.

Definition laneData (st : State) : list LaneRow :=
  laneLoop (betAmount st) (tableSurvivalRate (currentLane st))
           (Z.to_nat (lanes st)) 1 1%Q.

(** [laneData[i]] for an integer [i]: [undefined] outside the table. *)
Definition row (st : State) (i : Z) : option LaneRow :=
  if i <? 0 then None else laneData st !! Z.to_nat i.

(** The three random numbers drawn for one car. *)
Record CarDraw := mkCarDraw {
  randPosition : Q;
  randSpeed : Q;
  randCar : Q
}.

Definition carThreshold (i : nat) : Q :=
  if (i <? 3)%nat then 2 # 10 else if (i <? 6)%nat then 3 # 10 else 4 # 10.

Definition startGame (rnd : nat -> CarDraw) (st : State) : State :=
  let cars :=
    map (fun i => mkCar (randPosition (rnd i))
                        ((1 # 2) + randSpeed (rnd i) * (1 # 2))%Q
                        (Js.gt (randCar (rnd i)) (carThreshold i)))
        (seq 0 (Z.to_nat (lanes st))) in
  setGameState playing (setCurrentLane 0 (setCarPositions cars st)).

(** The two updates of [stats]. *)
Definition recordWin (reached : Z) (winAmount : Q) (prev : Stats) : Stats :=
  mkStats (games prev + 1) (wins prev + 1) (Z.max (maxLane prev) reached)
          (profit prev + winAmount)%Q.

Definition recordLoss (reached : Z) (bet : Q) (prev : Stats) : Stats :=
  mkStats (games prev + 1) (wins prev) (Z.max (maxLane prev) reached)
          (profit prev - bet)%Q.

(** [crossLane], with [r] the number [Math.random()] returns.  [None] is
    the TypeError of reading [profit] from a missing table entry. *)
Definition crossLane (r : Q) (st : State) : option State :=
  if negb (isPlaying st) then Some st else
  let survivalRate := crossSurvivalRate (currentLane st) in
  let survived := lt r survivalRate in
  if survived then
    let newLane := currentLane st + 1 in
    if newLane =? lanes st then
      entry ← row st (newLane - 1);
      let winAmount := laneProfit entry in
      Some (setStats (recordWin newLane winAmount)
             (setGameState won (setCurrentLane newLane st)))
    else Some (setCurrentLane newLane st)
  else
    Some (setStats (recordLoss (currentLane st) (betAmount st))
           (setGameState lost st)).

Definition cashOut (st : State) : option State :=
  if negb (isPlaying st) || (currentLane st =? 0) then Some st else
  entry ← row st (currentLane st - 1);
  let winAmount := laneProfit entry in
  Some (setStats (recordWin (currentLane st) winAmount) (setGameState won st)).

(** The three [option] elements of the lanes [select]. *)
Inductive LaneOption := Easy | Medium | Hard.

Definition optionValue (o : LaneOption) : Z :=
  match o with Easy => 5 | Medium => 7 | Hard => 9 end.

(** [parseFloat(e.target.value) || 1]; [None] is [NaN]. *)
Definition parsedBet (v : option Q) : Q :=
  match v with
  | Some q => if Qeq_bool q 0 then 1%Q else q
  | None => 1%Q
  end.

Inductive Event :=
| ClickStart (rnd : nat -> CarDraw)
| ClickCross (r : Q)
| ClickCashOut
| SelectLanes (o : LaneOption)
| InputBet (v : option Q).

(** Which controls are rendered and not disabled. *)
Definition enabled (e : Event) (st : State) : bool :=
  match e with
  | ClickStart _ => negb (isPlaying st)
  | ClickCross _ => isPlaying st
  | ClickCashOut => isPlaying st && negb (currentLane st =? 0)
  | SelectLanes _ | InputBet _ => negb (isPlaying st)
  end.

Definition handle (e : Event) (st : State) : option State :=
  match e with
  | ClickStart rnd => Some (startGame rnd st)
  | ClickCross r => crossLane r st
  | ClickCashOut => cashOut st
  | SelectLanes o => Some (setLanes (optionValue o) st)
  | InputBet v => Some (setBetAmount (parsedBet v) st)
  end.

(** An event on a control that is not there does not happen. *)
Definition step (e : Event) (st : State) : option State :=
  if enabled e st then handle e st else Some st.

Definition run (es : list Event) (st : State) : option State :=
  foldl (fun (acc : option State) e => acc ≫= step e) (Some st) es.

(** Whether a game ended between two states. *)
Definition ended (st st' : State) : bool :=
  isPlaying st && negb (isPlaying st').

Definition isWon (st : State) : bool :=
  match gameState st with won => true | _ => false end.

(** What holds of every state the component reaches. *)
Definition reachable_shape (st : State) : Prop :=
  (lanes st = 5 \/ lanes st = 7 \/ lanes st = 9) /\
  0 <= currentLane st /\
  (gameState st = playing -> currentLane st < lanes st) /\
  (gameState st = idle -> games (stats st) = 0) /\
  0 <= wins (stats st) <= games (stats st) /\
  0 <= maxLane (stats st) <= 9.

End Component.

End RoadCrossingSimulator.

(** * Properties *)

(** ** The feed buffer: [slice(0, limit)] after a prepend or a replace *)

Section FeedBuffer.

Context {T : Type}.

Lemma slice_from_start (n : Z) (l : list T) :
  0 <= n -> Js.slice 0 n l = take (Z.to_nat n) l.
Proof.
  intros Hn. unfold Js.slice.
  change (0 <? 0) with false.
  destruct (n <? 0) eqn:E; [apply Z.ltb_lt in E; lia|].
  cbv beta iota zeta.
  rewrite (Z.min_l 0) by lia. rewrite Z.sub_0_r.
  change (drop (Z.to_nat 0) l) with l.
  destruct (Z.le_gt_cases n (Z.of_nat (length l))) as [H|H].
  - now rewrite Z.min_l by lia.
  - rewrite Z.min_r by lia. rewrite Nat2Z.id.
    rewrite (take_ge l (length l)) by lia.
    now rewrite (take_ge l (Z.to_nat n)) by lia.
Qed.

Lemma take_app_take (n : nat) (l1 l2 : list T) :
  take n (l1 ++ take n l2) = take n (l1 ++ l2).
Proof.
  rewrite !take_app. f_equal.
  rewrite take_take. f_equal. lia.
Qed.

(** Folding "prepend, then keep the first [n]" over [xs] keeps the
    first [n] of the reversed input followed by the old content. *)
Lemma prepend_fold (n : nat) (xs b : list T) :
  xs <> [] \/ (length b <= n)%nat ->
  foldl (fun acc x => take n (x :: acc)) b xs = take n (rev xs ++ b).
Proof.
  destruct xs as [|x0 xs].
  - intros [H|H]; [congruence|]. simpl. now rewrite take_ge.
  - intros _. revert x0 b. induction xs as [|x xs IH]; intros x0 b.
    + reflexivity.
    + change (foldl (fun acc x => take n (x :: acc)) b (x0 :: x :: xs))
        with (foldl (fun acc x => take n (x :: acc)) (take n (x0 :: b)) (x :: xs)).
      rewrite IH.
      change (rev (x0 :: x :: xs)) with (rev (x :: xs) ++ [x0]).
      rewrite <- app_assoc. apply take_app_take.
Qed.

Lemma take_rev_prefix (n : nat) (xs b : list T) :
  b = [] \/ (n <= length xs)%nat ->
  take n (rev xs ++ b) = take (Nat.min (length xs) n) (rev xs).
Proof.
  intros [->|H].
  - rewrite app_nil_r.
    destruct (Nat.le_gt_cases n (length xs)).
    + now rewrite Nat.min_r.
    + rewrite Nat.min_l by lia.
      rewrite (take_ge (rev xs) n) by (rewrite length_rev; lia).
      now rewrite (take_ge (rev xs) (length xs)) by (rewrite length_rev; lia).
  - rewrite Nat.min_r by lia.
    rewrite take_app_le; [reflexivity | rewrite length_rev; lia].
Qed.

End FeedBuffer.

(** ** useWebSocket: the message handler *)

Section MessageHandler.

Import UseWebSocket.
Context {A : Type}.
Variable cfg : GameConfig.
Hypothesis limit_nonneg : 0 <= liveFeedLimit (ui cfg).

Lemma onmessage_crossing (p : JsValue A) (st : State A) :
  crossings (onmessage cfg (crossingMessage p) st) = take (Z.to_nat (liveFeedLimit (ui cfg))) (p :: crossings st).
Proof.
  unfold crossingMessage, onmessage. cbn.
  now rewrite slice_from_start.
Qed.

Lemma receiveCrossings_fold (ps : list (JsValue A)) (st : State A) :
  crossings (receiveCrossings cfg ps st)
  = foldl (fun acc x => take (Z.to_nat (liveFeedLimit (ui cfg))) (x :: acc)) (crossings st) ps.
Proof.
  unfold receiveCrossings. revert st.
  induction ps as [|p ps IH]; intros st; [reflexivity|].
  cbn [foldl]. rewrite IH. now rewrite onmessage_crossing.
Qed.

Lemma ticks_fold (ds : list LiveFeed.Draw) (lf : LiveFeed.State) :
  LiveFeed.crossings (LiveFeed.ticks cfg ds lf)
  = foldl (fun acc x => take (Z.to_nat (liveFeedLimit (ui cfg))) (x :: acc)) (LiveFeed.crossings lf)
          (map LiveFeed.generateMockCrossing ds).
Proof.
  unfold LiveFeed.ticks. revert lf.
  induction ds as [|d ds IH]; intros lf; [reflexivity|].
  cbn [foldl map]. rewrite IH. unfold LiveFeed.tick. cbn.
  now rewrite slice_from_start.
Qed.

End MessageHandler.

(** C5. A run of ['crossing'] messages (and likewise a run of demo ticks)
    leaves in the feed buffer exactly the [min k N] most recently
    prepended events, newest first, where [k] is the number of prepends
    and [N = liveFeedLimit]: from an empty buffer for every [k], and from
    any buffer once at least one and at least [N] events were prepended,
    so older entries are evicted. *)
Theorem feed_keeps_most_recent {A : Type} (cfg : GameConfig)
    (ps : list (UseWebSocket.JsValue A)) (st : UseWebSocket.State A)
    (ds : list LiveFeed.Draw) (lf : LiveFeed.State) :
  0 <= liveFeedLimit (ui cfg) ->
  UseWebSocket.crossings st = [] \/
    (0 < length ps /\ Z.to_nat (liveFeedLimit (ui cfg)) <= length ps)%nat ->
  LiveFeed.crossings lf = [] \/
    (0 < length ds /\ Z.to_nat (liveFeedLimit (ui cfg)) <= length ds)%nat ->
  let N := Z.to_nat (liveFeedLimit (ui cfg)) in
  let feed := UseWebSocket.crossings (UseWebSocket.receiveCrossings cfg ps st) in
  let demo := LiveFeed.crossings (LiveFeed.ticks cfg ds lf) in
  feed = take (Nat.min (length ps) N) (rev ps) /\
  length feed = Nat.min (length ps) N /\
  demo = take (Nat.min (length ds) N) (rev (map LiveFeed.generateMockCrossing ds)) /\
  length demo = Nat.min (length ds) N.
Proof.
  intros Hn Hst Hlf N feed demo.
  assert (Hfeed : feed = take (Nat.min (length ps) N) (rev ps)).
  { subst feed. rewrite receiveCrossings_fold by assumption.
    rewrite prepend_fold.
    - apply take_rev_prefix. fold N in Hst. tauto.
    - destruct Hst as [->|[H _]]; [right; simpl; lia|].
      left. intros ->. simpl in H. lia. }
  assert (Hdemo : demo = take (Nat.min (length ds) N)
                              (rev (map LiveFeed.generateMockCrossing ds))).
  { subst demo. rewrite ticks_fold by assumption.
    rewrite prepend_fold.
    - rewrite <- (length_map LiveFeed.generateMockCrossing ds).
      apply take_rev_prefix. rewrite length_map. fold N in Hlf. tauto.
    - destruct Hlf as [->|[H _]]; [right; simpl; lia|].
      left. intros E. apply (f_equal length) in E.
      rewrite length_map in E. simpl in E. lia. }
  repeat split; trivial.
  - rewrite Hfeed, length_take, length_rev. lia.
  - rewrite Hdemo, length_take, length_rev, length_map. lia.
Qed.

(** A run of 25 messages into the fresh hook and 3 ticks into an empty
    feed, with the shipped configuration. *)
Lemma feed_keeps_most_recent_witness :
  let ps := map UseWebSocket.JAtom (seq 0 25) in
  let ds := map (fun i => LiveFeed.mkDraw (Z.of_nat i # 4) 0 0 0 "cr") (seq 0 3) in
  let lf := LiveFeed.mkState None false [] false (Some 3000%Q) in
  UseWebSocket.crossings (UseWebSocket.receiveCrossings gameConfig ps UseWebSocket.fresh)
    = take 20 (rev ps) /\
  LiveFeed.crossings (LiveFeed.ticks gameConfig ds lf)
    = rev (map LiveFeed.generateMockCrossing ds).
Proof.
  intros ps ds lf.
  destruct (feed_keeps_most_recent gameConfig ps UseWebSocket.fresh ds lf)
    as (H1 & _ & H2 & _).
  - simpl. lia.
  - left. reflexivity.
  - left. reflexivity.
  - split; [exact H1 | exact H2].
Defined.

(** C6. A ['history'] message whose payload is a sequence of length [M]
    replaces the whole buffer by the first [min M N] elements of the
    payload, in the given order. *)
Theorem history_replaces_feed {A : Type} (cfg : GameConfig)
    (items : list (UseWebSocket.JsValue A)) (st : UseWebSocket.State A) :
  0 <= liveFeedLimit (ui cfg) ->
  let N := Z.to_nat (liveFeedLimit (ui cfg)) in
  let st' := UseWebSocket.onmessage cfg
               (Some (UseWebSocket.mkData "history" (UseWebSocket.JArray items))) st in
  UseWebSocket.crossings st' = take (Nat.min (length items) N) items /\
  length (UseWebSocket.crossings st') = Nat.min (length items) N /\
  (forall i x, (i < N)%nat -> items !! i = Some x ->
               UseWebSocket.crossings st' !! i = Some x).
Proof.
  intros Hn N st'.
  assert (H : UseWebSocket.crossings st' = take N items).
  { subst st'. unfold UseWebSocket.onmessage. cbn.
    now rewrite slice_from_start. }
  assert (Hmin : take (Nat.min (length items) N) items = take N items).
  { destruct (Nat.le_gt_cases N (length items)).
    - now rewrite Nat.min_r.
    - rewrite Nat.min_l by lia.
      rewrite (take_ge items N) by lia. now rewrite take_ge. }
  repeat split.
  - now rewrite Hmin.
  - rewrite H, length_take. lia.
  - intros i x Hi Hx. rewrite H. now rewrite lookup_take_lt.
Qed.

(** A payload of 25 elements under the shipped limit of 20. *)
Lemma history_replaces_feed_witness :
  let items := map UseWebSocket.JAtom (seq 0 25) in
  UseWebSocket.crossings
    (UseWebSocket.onmessage gameConfig
       (Some (UseWebSocket.mkData "history" (UseWebSocket.JArray items)))
       (UseWebSocket.setCrossings [UseWebSocket.JAtom 99%nat] UseWebSocket.fresh))
  = take 20 items.
Proof.
  intros items.
  apply (history_replaces_feed gameConfig items). simpl. lia.
Defined.

(** ** useWebSocket: sockets and what is sent on them *)

Section Sockets.

Import UseWebSocket.
Context {A : Type}.

Lemma sentOn_ext (s : nat) (st1 st2 : State A) :
  sockets st1 = sockets st2 -> sentOn s st1 = sentOn s st2.
Proof. unfold sentOn. now intros ->. Qed.

Lemma readyStateOf_ext (s : nat) (st1 st2 : State A) :
  sockets st1 = sockets st2 -> readyStateOf s st1 = readyStateOf s st2.
Proof. unfold readyStateOf. now intros ->. Qed.

Lemma sentOn_ws_send (c s : nat) (f : Frame) (st : State A) :
  sentOn s (ws_send c f st)
  = if bool_decide (s = c) && bool_decide (is_Some (sockets st !! c))
    then sentOn s st ++ [f] else sentOn s st.
Proof.
  unfold sentOn, ws_send, set_sockets. cbn [sockets].
  case_bool_decide as Hs; cbn [andb].
  - subst s. rewrite list_lookup_alter_eq.
    destruct (sockets st !! c) as [k|]; [|reflexivity].
    rewrite bool_decide_eq_true_2 by eauto. reflexivity.
  - rewrite list_lookup_alter_ne by congruence. reflexivity.
Qed.

Lemma readyStateOf_ws_send (c s : nat) (f : Frame) (st : State A) :
  readyStateOf s (ws_send c f st) = readyStateOf s st.
Proof.
  unfold readyStateOf, ws_send, set_sockets. cbn [sockets].
  destruct (decide (s = c)) as [->|Hs].
  - rewrite list_lookup_alter_eq. now destruct (sockets st !! c).
  - now rewrite list_lookup_alter_ne by congruence.
Qed.

(** [onmessage] changes the sockets only by the reply to a ping on the
    current socket. *)
Lemma onmessage_sockets (cfg : GameConfig) (d : option (Data A)) (st : State A) :
  sockets (onmessage cfg d st)
  = match wsRef st with
    | Some c => if isPing d && currentIsOpen st
                then sockets (ws_send c Pong st) else sockets st
    | None => sockets st
    end.
Proof.
  destruct d as [[ty p]|]; [|now destruct (wsRef st)].
  unfold onmessage, isPing. cbn [type payload].
  destruct (ty =? "crossing")%string eqn:E1.
  { apply String.eqb_eq in E1. subst ty. now destruct (wsRef st). }
  destruct (ty =? "history")%string eqn:E2.
  { apply String.eqb_eq in E2. subst ty. now destruct p, (wsRef st). }
  destruct (ty =? "stats")%string eqn:E3.
  { apply String.eqb_eq in E3. subst ty. now destruct (wsRef st). }
  destruct (ty =? "ping")%string eqn:E4; [|now destruct (wsRef st)].
  cbn [andb]. destruct (wsRef st) as [c|]; [|reflexivity].
  now destruct (currentIsOpen st).
Qed.

End Sockets.


(** An open channel answers a ping with one pong; after [disconnect] a
    ping that is still delivered is not answered. *)
Example ping_on_open_and_on_closing_channel :
  let st := UseWebSocket.onopen
              (UseWebSocket.setReadyState 0 UseWebSocket.OPEN
                 (UseWebSocket.mounted (A:=unit) true)) in
  let ping := Some (UseWebSocket.mkData "ping" (UseWebSocket.JArray [])) in
  UseWebSocket.sentOn 0 (UseWebSocket.onmessage gameConfig ping st)
    = [UseWebSocket.Pong] /\
  UseWebSocket.sentOn 0
    (UseWebSocket.onmessage gameConfig ping (UseWebSocket.disconnect st)) = [].
Proof. intros st ping. split; reflexivity. Qed.

(** ** useWebSocket: connect and disconnect *)

(** C3, as the code has it.  [connect] has no guard for an existing
    channel.  While the attempt counter is below 5 it constructs a new
    socket and makes it the current one; the sockets that existed stay as
    they were (none is closed), so the number of live channels grows by
    one; the connected flag, the error, the counter, the buffer and the
    timers are untouched.  Once the counter has reached 5 it constructs
    nothing and sets the terminal error. *)
Theorem connect_opens_another_channel {A : Type} (st : UseWebSocket.State A) :
  let st' := UseWebSocket.connect true st in
  UseWebSocket.connected st' = UseWebSocket.connected st /\
  UseWebSocket.reconnectAttemptsRef st' = UseWebSocket.reconnectAttemptsRef st /\
  UseWebSocket.crossings st' = UseWebSocket.crossings st /\
  UseWebSocket.timers st' = UseWebSocket.timers st /\
  if (UseWebSocket.reconnectAttemptsRef st <? UseWebSocket.maxReconnectAttempts)%nat
  then UseWebSocket.sockets st'
         = UseWebSocket.sockets st
           ++ [UseWebSocket.mkSocket UseWebSocket.CONNECTING []] /\
       UseWebSocket.wsRef st' = Some (length (UseWebSocket.sockets st)) /\
       UseWebSocket.liveChannels st' = S (UseWebSocket.liveChannels st) /\
       UseWebSocket.error st' = UseWebSocket.error st
  else UseWebSocket.sockets st' = UseWebSocket.sockets st /\
       UseWebSocket.wsRef st' = UseWebSocket.wsRef st /\
       UseWebSocket.error st' = Some UseWebSocket.msgMaxAttempts.
Proof.
  intros st'. subst st'. unfold UseWebSocket.connect.
  destruct (UseWebSocket.reconnectAttemptsRef st <? UseWebSocket.maxReconnectAttempts)%nat
    eqn:E.
  - apply Nat.ltb_lt in E.
    destruct (UseWebSocket.maxReconnectAttempts <=? UseWebSocket.reconnectAttemptsRef st)%nat
      eqn:E'; [apply Nat.leb_le in E'; lia|].
    cbn. repeat split.
    unfold UseWebSocket.liveChannels. cbn [UseWebSocket.sockets].
    rewrite filter_app, length_app, filter_cons, filter_nil.
    destruct (decide _) as [_|n]; [cbn; lia | now destruct n].
  - apply Nat.ltb_ge in E.
    destruct (UseWebSocket.maxReconnectAttempts <=? UseWebSocket.reconnectAttemptsRef st)%nat
      eqn:E'; [|apply Nat.leb_gt in E'; lia].
    cbn. repeat split.
Qed.

(** C3 fails as stated: on a connected hook with its one open channel,
    [connect()] yields a second live channel and moves [wsRef] to it,
    while the first stays open. *)
Lemma connect_while_connected_adds_channel :
  exists st : UseWebSocket.State unit,
    UseWebSocket.run gameConfig
      [UseWebSocket.EvConnect true; UseWebSocket.EvOpen 0] UseWebSocket.fresh = Some st /\
    UseWebSocket.connected st = true /\
    UseWebSocket.liveChannels st = 1%nat /\
    UseWebSocket.liveChannels (UseWebSocket.connect true st) = 2%nat /\
    UseWebSocket.wsRef (UseWebSocket.connect true st) = Some 1%nat /\
    UseWebSocket.readyStateOf 0 (UseWebSocket.connect true st) = Some UseWebSocket.OPEN /\
    UseWebSocket.readyStateOf 1 (UseWebSocket.connect true st)
      = Some UseWebSocket.CONNECTING /\
    ~ (UseWebSocket.liveChannels (UseWebSocket.connect true st) <= 1)%nat.
Proof.
  eexists. split; [vm_compute; reflexivity|].
  repeat split. vm_compute. lia.
Qed.

(** What [disconnect] does achieve: a retry that is already scheduled is
    cancelled, and with every socket closed nothing further happens. *)
Example disconnect_cancels_pending_retry :
  exists st : UseWebSocket.State unit,
    UseWebSocket.run gameConfig
      [UseWebSocket.EvConnect true; UseWebSocket.EvClose 0; UseWebSocket.EvDisconnect]
      UseWebSocket.fresh = Some st /\
    map UseWebSocket.delay (UseWebSocket.timers st) = [1000] /\
    UseWebSocket.pendingTimers st = [] /\
    UseWebSocket.liveChannels st = 0%nat /\
    UseWebSocket.step gameConfig (UseWebSocket.EvTimeout 0 true) st = None.
Proof.
  eexists. split; [vm_compute; reflexivity|]. repeat split.
Qed.

(** C2, evaluated on the code.  After open and [disconnect()] the timer
    store holds nothing pending and [wsRef] is null, but the socket is
    only closing; when its close event arrives, [onclose] schedules a
    retry after 1000 ms, and when that timer fires a new socket is
    constructed although [connect()] was never called again. *)
Theorem disconnect_then_close_reconnects :
  exists st1 st2 st3 : UseWebSocket.State unit,
    UseWebSocket.run gameConfig
      [UseWebSocket.EvConnect true; UseWebSocket.EvOpen 0; UseWebSocket.EvDisconnect]
      UseWebSocket.fresh = Some st1 /\
    UseWebSocket.wsRef st1 = None /\
    UseWebSocket.connected st1 = false /\
    UseWebSocket.pendingTimers st1 = [] /\
    UseWebSocket.readyStateOf 0 st1 = Some UseWebSocket.CLOSING /\
    UseWebSocket.step gameConfig (UseWebSocket.EvClose 0) st1 = Some st2 /\
    UseWebSocket.pendingTimers st2 = [UseWebSocket.mkTimer 1000 true] /\
    UseWebSocket.step gameConfig (UseWebSocket.EvTimeout 0 true) st2 = Some st3 /\
    UseWebSocket.wsRef st3 = Some 1%nat /\
    UseWebSocket.readyStateOf 1 st3 = Some UseWebSocket.CONNECTING /\
    UseWebSocket.reconnectAttemptsRef st3 = 1%nat.
Proof.
  do 3 eexists.
  split; [vm_compute; reflexivity|].
  do 4 (split; [reflexivity|]).
  split; [vm_compute; reflexivity|].
  split; [reflexivity|].
  split; [vm_compute; reflexivity|].
  repeat split.
Qed.

(** ** LiveFeed: the demo generator *)

Section Generator.

Import LiveFeed.

(** [Math.floor(Math.random() * 6)] is one of 0, ..., 5. *)
Lemma lanes_range (r : Q) :
  unit_interval r -> 0 <= Qfloor (r * 6) <= 5.
Proof.
  intros [H0 H1]. split.
  - change 0 with (Qfloor 0). apply Qfloor_resp_le.
    apply Qmult_le_0_compat; [exact H0 | discriminate].
  - assert (H : (r * 6 < 1 * 6)%Q)
      by (apply Qmult_lt_compat_r; [reflexivity | exact H1]).
    change (1 * 6)%Q with (inject_Z 6) in H.
    pose proof (Qfloor_le (r * 6)) as Hf.
    assert (Hlt : (inject_Z (Qfloor (r * 6)) < inject_Z 6)%Q)
      by (eapply Qle_lt_trans; eassumption).
    rewrite <- Zlt_Qlt in Hlt. lia.
Qed.

Lemma tableMultiplier_cases (lanes : Z) :
  0 <= lanes <= 5 ->
  exists m, tableMultiplier lanes = Some m /\
            ((0 < m)%Q <-> 1 <= lanes) /\ ((m == 0)%Q <-> lanes = 0).
Proof.
  intros H.
  assert (C : lanes = 0 \/ lanes = 1 \/ lanes = 2 \/ lanes = 3 \/ lanes = 4 \/ lanes = 5)
    by lia.
  destruct C as [->|[->|[->|[->|[->| ->]]]]]; eexists;
    (split; [reflexivity|]); split; split; intros; try lia; try reflexivity;
    try discriminate.
Qed.

End Generator.

(** C4, as the code has it.  Every generated crossing has between 0 and 5
    lanes.  A hit has fewer than 5 lanes and multiplier 0, as the
    invariant asks.  A crossed event may have any number of lanes from 0
    to 5; its multiplier is the table entry for that number (0 for no
    lane, then 1.2, 1.5, 2.0, 3.5, 8.0), so it is positive exactly when
    at least one lane was crossed. *)
Theorem generated_crossing_shape (d : LiveFeed.Draw) :
  LiveFeed.unit_interval (LiveFeed.randLane d) ->
  let c := LiveFeed.generateMockCrossing d in
  0 <= LiveFeed.lanesCrossed c <= 5 /\
  match LiveFeed.outcome c with
  | LiveFeed.hit =>
      LiveFeed.lanesCrossed c < 5 /\ LiveFeed.multiplier c = Some 0%Q /\
      LiveFeed.crossing_invariant gameConfig c
  | LiveFeed.crossed =>
      exists m, LiveFeed.multiplier c = Some m /\
                LiveFeed.tableMultiplier (LiveFeed.lanesCrossed c) = Some m /\
                ((0 < m)%Q <-> 1 <= LiveFeed.lanesCrossed c)
  end.
Proof.
  intros Hr c.
  pose proof (lanes_range _ Hr) as Hl.
  split; [exact Hl|].
  unfold LiveFeed.crossing_invariant.
  subst c. unfold LiveFeed.generateMockCrossing.
  cbn [LiveFeed.outcome LiveFeed.multiplier LiveFeed.lanesCrossed].
  set (lanes := Qfloor (LiveFeed.randLane d * 6)) in *.
  destruct ((lanes <? 5) && Js.gt (LiveFeed.randHit d) (7 # 10)) eqn:E.
  - apply andb_prop in E as [E _]. apply Z.ltb_lt in E.
    cbn [maxLanes gameConfig].
    repeat split; try exact E.
    exists 0%Q. split; reflexivity.
  - destruct (tableMultiplier_cases lanes Hl) as (m & Hm & Hpos & _).
    exists m. repeat split; trivial; apply Hpos.
Qed.

(** A draw in the middle of the range. *)
Lemma generated_crossing_shape_witness :
  let d := LiveFeed.mkDraw (1 # 2) (9 # 10) (1 # 4) 1700000000000 "cr_1700000000000_k3j9x2m1q" in
  LiveFeed.unit_interval (LiveFeed.randLane d) /\
  LiveFeed.lanesCrossed (LiveFeed.generateMockCrossing d) < 5 /\
  LiveFeed.multiplier (LiveFeed.generateMockCrossing d) = Some 0%Q.
Proof.
  intros d.
  assert (H : LiveFeed.unit_interval (LiveFeed.randLane d))
    by (split; [discriminate | reflexivity]).
  split; [exact H|].
  destruct (generated_crossing_shape d H) as (_ & H1 & H2 & _).
  split; [exact H1 | exact H2].
Defined.

(** C4 fails as stated: with a lane draw of 1/2 and a hit draw of 0 the
    generator returns a crossed event of 3 lanes; and with a lane draw of
    0 a crossed event of 0 lanes whose multiplier is 0. *)
Lemma generated_crossing_breaks_invariant :
  let d1 := LiveFeed.mkDraw (1 # 2) 0 0 0 "cr_0_a" in
  let d2 := LiveFeed.mkDraw 0 0 0 0 "cr_0_b" in
  LiveFeed.unit_interval (LiveFeed.randLane d1) /\
  LiveFeed.unit_interval (LiveFeed.randHit d1) /\
  LiveFeed.outcome (LiveFeed.generateMockCrossing d1) = LiveFeed.crossed /\
  LiveFeed.lanesCrossed (LiveFeed.generateMockCrossing d1) = 3 /\
  ~ LiveFeed.crossing_invariant gameConfig (LiveFeed.generateMockCrossing d1) /\
  LiveFeed.outcome (LiveFeed.generateMockCrossing d2) = LiveFeed.crossed /\
  LiveFeed.multiplier (LiveFeed.generateMockCrossing d2) = Some 0%Q /\
  ~ LiveFeed.crossing_invariant gameConfig (LiveFeed.generateMockCrossing d2).
Proof.
  intros d1 d2.
  split; [split; [discriminate | reflexivity]|].
  split; [split; [discriminate | reflexivity]|].
  split; [reflexivity|]. split; [reflexivity|].
  split; [intros [H _]; discriminate H|].
  split; [reflexivity|]. split; [reflexivity|].
  intros [H _]. discriminate H.
Qed.

(** ** useStats *)

Section StatsHook.

Import UseStats.

(** A fetch fails exactly when the request is rejected, the response
    is not ok, or its body does not parse. *)
Lemma failure_None {T : Type} (f : Fetched T) :
  failure f = None <->
  exists r data, f = Resolved r /\ ok r = true /\ json r = inr data.
Proof.
  unfold failure, decode. split.
  - destruct f as [m|[o s [m|data]]]; cbn; try discriminate;
      destruct o; cbn; try discriminate.
    intros _. eexists _, data. repeat split.
  - intros (r & data & -> & Hok & Hj). cbn. now rewrite Hok, Hj.
Qed.

Lemma decode_failure {T : Type} (f : Fetched T) (message : string) :
  failure f = Some message -> decode f = inl message.
Proof.
  unfold failure. destruct (decode f); [now intros [= ->] | discriminate].
Qed.


(** [toFixed] picks the nearest multiple of [10^-d], the larger on a tie. *)
Lemma toFixed_nearest (x : Q) (d : nat) :
  (0 <= x)%Q ->
  let n := inject_Z (Js.scaled (Js.toFixed x d)) in
  let p := inject_Z (10 ^ Z.of_nat d) in
  Js.digits (Js.toFixed x d) = d /\
  (n <= x * p + (1 # 2))%Q /\ (x * p + (1 # 2) < n + 1)%Q.
Proof.
  intros Hx n p. subst n. unfold Js.toFixed.
  apply Qle_bool_iff in Hx. rewrite Hx. cbn [Js.scaled Js.digits].
  split; [reflexivity|]. split.
  - apply Qfloor_le.
  - rewrite <- (inject_Z_plus _ 1). apply Qlt_floor.
Qed.

End StatsHook.

(** C8. A failed lane-statistics or history fetch changes nothing: the
    last good overall snapshot and the page-level error stay as they
    were.  A failed overall-statistics fetch sets the error to the
    message of the failure and keeps the previous snapshot (and whatever
    lane statistics arrive meanwhile are stored, in either order).  A
    later successful overall-statistics fetch stores its data as the
    snapshot and clears the error. *)
Theorem stats_fetch_failures {LaneStats History : Type}
    (st : UseStats.State LaneStats History)
    (bad_stats good_stats : UseStats.Fetched UseStats.Stats)
    (bad_lanes good_lanes : UseStats.Fetched LaneStats)
    (bad_history : UseStats.Fetched (list History))
    (message : string) (data : UseStats.Stats) (lanes : LaneStats) :
  UseStats.failure bad_lanes <> None ->
  UseStats.failure bad_history <> None ->
  UseStats.failure bad_stats = Some message ->
  UseStats.decode good_stats = inr data ->
  UseStats.decode good_lanes = inr lanes ->
  UseStats.fetchLaneStats bad_lanes st = st /\
  UseStats.fetchHistory bad_history st = st /\
  UseStats.fetchStats bad_stats st
    = UseStats.setError (Some message) st /\
  UseStats.stats (UseStats.fetchStats bad_stats st) = UseStats.stats st /\
  UseStats.error (UseStats.fetchStats bad_stats st) = Some message /\
  UseStats.fetchLaneStats good_lanes (UseStats.fetchStats bad_stats st)
    = UseStats.fetchStats bad_stats (UseStats.fetchLaneStats good_lanes st) /\
  UseStats.laneStats (UseStats.fetchLaneStats good_lanes (UseStats.fetchStats bad_stats st))
    = Some lanes /\
  UseStats.stats (UseStats.fetchLaneStats good_lanes (UseStats.fetchStats bad_stats st))
    = UseStats.stats st /\
  UseStats.stats (UseStats.fetchStats good_stats (UseStats.fetchStats bad_stats st))
    = Some data /\
  UseStats.error (UseStats.fetchStats good_stats (UseStats.fetchStats bad_stats st))
    = None.
Proof.
  intros Hl Hh Hs Hg Hgl.
  apply decode_failure in Hs.
  unfold UseStats.failure in Hl, Hh.
  unfold UseStats.fetchLaneStats, UseStats.fetchHistory, UseStats.fetchStats.
  rewrite Hs, Hg, Hgl.
  destruct (UseStats.decode bad_lanes); [|congruence].
  destruct (UseStats.decode bad_history); [|congruence].
  repeat split.
Qed.

(** A server error on the three endpoints, then a good overall reply. *)
Lemma stats_fetch_failures_witness :
  let st := UseStats.mkState (Some (UseStats.mkStats 10 7 10 23)) (Some 1%nat) [2%nat] false None in
  let bad (T : Type) : UseStats.Fetched T :=
    UseStats.Resolved (UseStats.mkResponse false "500" (inl "Unexpected token")) in
  let good := UseStats.Resolved
                (UseStats.mkResponse true "200" (inr (UseStats.mkStats 12 8 12 27))) in
  UseStats.fetchLaneStats (bad nat) st = st /\
  UseStats.fetchHistory (bad (list nat)) st = st /\
  UseStats.stats (UseStats.fetchStats (bad UseStats.Stats) st) = UseStats.stats st /\
  UseStats.error (UseStats.fetchStats (bad UseStats.Stats) st)
    = Some "HTTP error! status: 500" /\
  UseStats.error (UseStats.fetchStats good (UseStats.fetchStats (bad UseStats.Stats) st))
    = None.
Proof.
  intros st bad good.
  destruct (stats_fetch_failures st (bad UseStats.Stats) good (bad nat)
              (UseStats.Resolved (UseStats.mkResponse true "200" (inr 5%nat)))
              (bad (list nat)) "HTTP error! status: 500"
              (UseStats.mkStats 12 8 12 27) 5%nat)
    as (H1 & H2 & _ & H3 & H4 & _ & _ & _ & _ & H5);
    try reflexivity; try discriminate.
  repeat split; assumption.
Defined.



(** ** LiveFeed: the demo interval *)

Section DemoInterval.

Import LiveFeed.
Variable cfg : GameConfig.





Lemma length_insertNewestFirst (c : Crossing) (l : list Crossing) :
  length (insertNewestFirst c l) = S (length l).
Proof.
  induction l as [|x l IH]; [reflexivity|]. cbn.
  destruct (timestamp x <=? timestamp c); cbn; [reflexivity | now rewrite IH].
Qed.

Lemma length_sortNewestFirst (l : list Crossing) :
  length (sortNewestFirst l) = length l.
Proof.
  induction l as [|x l IH]; [reflexivity|].
  change (sortNewestFirst (x :: l)) with (insertNewestFirst x (sortNewestFirst l)).
  now rewrite length_insertNewestFirst, IH.
Qed.

(** The seeding effect is a separate path: it fills the buffer with 15
    generated crossings whenever no external crossings are given, and
    does not look at the connection. *)
Lemma seeding_ignores_connection (conn : bool) (env : SeedEnv) (r : Q) :
  length (crossings (mount (Some []) conn env r)) = 15%nat.
Proof.
  assert (H : forall st, crossings (tickEffect r st) = crossings st).
  { intros st. unfold tickEffect. cbn.
    now destruct (connected st || isPaused st). }
  unfold mount. rewrite H. unfold seedEffect.
  cbn [externalCrossings length Nat.eqb setCrossings crossings].
  now rewrite length_sortNewestFirst, length_map.
Qed.

End DemoInterval.



(** ** useWebSocket: the retry schedule *)

Section Backoff.

Import UseWebSocket.
Context {A : Type}.
Variable cfg : GameConfig.

Implicit Types st : State A.

Lemma readyStateOf_setReadyState i s r st :
  readyStateOf i (setReadyState s r st)
  = if decide (i = s) then (fun _ => r) <$> readyStateOf s st
    else readyStateOf i st.
Proof.
  unfold readyStateOf, setReadyState, set_sockets. cbn [sockets].
  destruct (decide (i = s)) as [->|H].
  - rewrite list_lookup_alter_eq. now destruct (sockets st !! s).
  - now rewrite list_lookup_alter_ne by congruence.
Qed.

Lemma readyStateOf_newWebSocket i st :
  readyStateOf i (snd (newWebSocket st))
  = if decide (i = length (sockets st)) then Some CONNECTING
    else readyStateOf i st.
Proof.
  unfold readyStateOf, newWebSocket, set_sockets. cbn [snd sockets].
  destruct (decide (i = length (sockets st))) as [->|H].
  - rewrite lookup_app_r by lia. now rewrite Nat.sub_diag.
  - destruct (Nat.lt_ge_cases i (length (sockets st))).
    + now rewrite lookup_app_l by lia.
    + rewrite (lookup_ge_None_2 (sockets st ++ _)) by (rewrite length_app; cbn; lia).
      now rewrite (lookup_ge_None_2 (sockets st)) by lia.
Qed.

Lemma timerPending_clearTimeout i t st :
  timerPending i (clearTimeout t st)
  = if decide (i = t) then false else timerPending i st.
Proof.
  unfold timerPending, clearTimeout, set_timers. cbn [timers].
  destruct (decide (i = t)) as [->|H].
  - rewrite list_lookup_alter_eq. now destruct (timers st !! t).
  - now rewrite list_lookup_alter_ne by congruence.
Qed.

Lemma timerPending_setTimeout i ms st :
  timerPending i (snd (setTimeout ms st))
  = if decide (i = length (timers st)) then true else timerPending i st.
Proof.
  unfold timerPending, setTimeout, set_timers. cbn [snd timers].
  destruct (decide (i = length (timers st))) as [->|H].
  - rewrite lookup_app_r by lia. now rewrite Nat.sub_diag.
  - destruct (Nat.lt_ge_cases i (length (timers st))).
    + now rewrite lookup_app_l by lia.
    + rewrite (lookup_ge_None_2 (timers st ++ _)) by (rewrite length_app; cbn; lia).
      now rewrite (lookup_ge_None_2 (timers st)) by lia.
Qed.

(** Two states that agree on the sockets' ready states, the timers'
    pending flags, the current socket and the counter are in the same
    phase. *)
Lemma Phase_ext k st st' :
  wsRef st' = wsRef st ->
  (forall i, readyStateOf i st' = readyStateOf i st) ->
  (forall t, timerPending t st' = timerPending t st) ->
  reconnectAttemptsRef st' = reconnectAttemptsRef st ->
  Phase k st -> Phase k st'.
Proof.
  intros Hw Hr Ht Ha [c H1 H2 H3 H4 H5 H6|t H1 H2 H3 H4 H5|H1 H2].
  - apply (Live k st' c).
    + congruence.
    + intros i r. rewrite Hr. apply H2.
    + now rewrite !Hr.
    + intros t. rewrite Ht. apply H4.
    + congruence.
    + exact H6.
  - apply (Waiting k st' t).
    + intros i r. rewrite Hr. apply H1.
    + now rewrite Ht.
    + intros i. rewrite Ht. apply H3.
    + congruence.
    + now rewrite Ha.
  - apply AtRest.
    + intros i r. rewrite Hr. apply H1.
    + intros t. rewrite Ht. apply H2.
Qed.

Lemma reply_frame c f st :
  let st' := if currentIsOpen st then ws_send c f st else st in
  wsRef st' = wsRef st /\ timers st' = timers st /\
  reconnectAttemptsRef st' = reconnectAttemptsRef st /\
  connected st' = connected st /\
  (forall i, readyStateOf i st' = readyStateOf i st).
Proof.
  cbn. destruct (currentIsOpen st); repeat split.
  intros i. apply readyStateOf_ws_send.
Qed.

(** [onmessage] and [sendMessage] touch only the buffer and the frames
    sent. *)
Lemma onmessage_frame d st :
  wsRef (onmessage cfg d st) = wsRef st /\
  timers (onmessage cfg d st) = timers st /\
  reconnectAttemptsRef (onmessage cfg d st) = reconnectAttemptsRef st /\
  connected (onmessage cfg d st) = connected st /\
  (forall i, readyStateOf i (onmessage cfg d st) = readyStateOf i st).
Proof.
  destruct d as [[ty p]|]; [|repeat split].
  unfold onmessage. cbn [type payload].
  destruct (ty =? "crossing")%string; [repeat split|].
  destruct (ty =? "history")%string; [destruct p; repeat split|].
  destruct (ty =? "stats")%string; [repeat split|].
  destruct (ty =? "ping")%string; [|repeat split].
  pose proof (fun c => reply_frame c Pong st) as Hsend.
  destruct (wsRef st) as [c|] eqn:E; [apply Hsend | repeat split; exact E].
Qed.

Lemma sendMessage_frame m st :
  wsRef (sendMessage m st) = wsRef st /\
  timers (sendMessage m st) = timers st /\
  reconnectAttemptsRef (sendMessage m st) = reconnectAttemptsRef st /\
  (forall i, readyStateOf i (sendMessage m st) = readyStateOf i st).
Proof.
  unfold sendMessage.
  pose proof (fun c => reply_frame c (ClientMessage m) st) as Hsend.
  destruct (wsRef st) as [c|] eqn:E; [|repeat split; exact E].
  destruct (Hsend c) as (H1 & H2 & H3 & _ & H4). repeat split; assumption.
Qed.

Lemma timerPending_ext t st st' :
  timers st' = timers st -> timerPending t st' = timerPending t st.
Proof. unfold timerPending. now intros ->. Qed.

(** A socket that is not closed is the current one, and the hook is
    in the live phase. *)
Lemma Phase_live k s r st :
  Phase k st -> readyStateOf s st = Some r -> r <> CLOSED ->
  wsRef st = Some s /\ closedExcept (Some s) st /\ noTimerPending st /\
  reconnectAttemptsRef st = k /\ (k < maxReconnectAttempts)%nat.
Proof.
  intros [c H1 H2 H3 H4 H5 H6|t H1 _ _ _ _|H1 _] Hs Hr.
  - destruct (decide (s = c)) as [->|Hne]; [now repeat split|].
    exfalso. apply Hr, (H2 s r Hs). congruence.
  - exfalso. apply Hr, (H1 s r Hs). discriminate.
  - exfalso. apply Hr, (H1 s r Hs). discriminate.
Qed.

Lemma Phase_waiting k t st :
  Phase k st -> timerPending t st = true ->
  closedExcept None st /\ (forall i, i <> t -> timerPending i st = false) /\
  k = S (reconnectAttemptsRef st) /\
  (reconnectAttemptsRef st < maxReconnectAttempts)%nat.
Proof.
  intros [c _ _ _ H4 _ _|t0 H1 H2 H3 H4 H5|_ H2] Ht.
  - rewrite H4 in Ht. discriminate.
  - destruct (decide (t = t0)) as [->|Hne]; [now repeat split|].
    rewrite (H3 t Hne) in Ht. discriminate.
  - rewrite H2 in Ht. discriminate.
Qed.

Lemma phase_open k c st :
  Phase k st -> readyStateOf c st = Some CONNECTING ->
  Phase 0 (onopen (setReadyState c OPEN st)).
Proof.
  intros Hp Hc.
  destruct (Phase_live k c CONNECTING st Hp Hc) as (Hw & Hcl & Hnt & _ & _);
    [discriminate|].
  apply (Live 0 _ c).
  - exact Hw.
  - intros i r.
    rewrite (readyStateOf_ext i _ (setReadyState c OPEN st)) by reflexivity.
    rewrite readyStateOf_setReadyState.
    destruct (decide (i = c)) as [->|Hne]; [congruence|]. apply Hcl.
  - right.
    rewrite (readyStateOf_ext c _ (setReadyState c OPEN st)) by reflexivity.
    rewrite readyStateOf_setReadyState, Hc.
    now destruct (decide (c = c)).
  - intros t. rewrite (timerPending_ext t st) by reflexivity. apply Hnt.
  - reflexivity.
  - unfold maxReconnectAttempts. lia.
Qed.

Lemma phase_close k c r st :
  Phase k st -> readyStateOf c st = Some r -> r <> CLOSED ->
  (k < maxReconnectAttempts)%nat /\
  timers (onclose (setReadyState c CLOSED st))
    = timers st ++ [mkTimer (backoffDelay k) true] /\
  Phase (S k) (onclose (setReadyState c CLOSED st)).
Proof.
  intros Hp Hc Hr.
  destruct (Phase_live k c r st Hp Hc Hr) as (Hw & Hcl & Hnt & Ha & Hk).
  split; [exact Hk|].
  unfold onclose.
  cbn [reconnectAttemptsRef setConnected setReadyState set_sockets].
  rewrite Ha. apply Nat.ltb_lt in Hk. rewrite Hk.
  cbn [setTimeout timers setConnected setReadyState set_sockets set_timers
       set_reconnectTimeoutRef].
  split; [reflexivity|].
  match goal with |- Phase _ ?X => set (st' := X) end.
  assert (Hrs : forall i, readyStateOf i st' = readyStateOf i (setReadyState c CLOSED st))
    by (intros i; apply readyStateOf_ext; reflexivity).
  assert (Htp : forall i, timerPending i st'
                          = timerPending i (snd (setTimeout (backoffDelay k) st)))
    by (intros i; apply timerPending_ext; reflexivity).
  apply (Waiting (S k) st' (length (timers st))).
  - intros i r'. rewrite Hrs, readyStateOf_setReadyState.
    destruct (decide (i = c)) as [->|Hne].
    + rewrite Hc. cbn. congruence.
    + intros Hi _. apply (Hcl i r' Hi). congruence.
  - rewrite Htp, timerPending_setTimeout.
    now destruct (decide (length (timers st) = length (timers st))).
  - intros i Hi. rewrite Htp, timerPending_setTimeout.
    destruct (decide (i = length (timers st))); [contradiction | apply Hnt].
  - subst st'. cbn. now rewrite Ha.
  - subst st'. cbn. rewrite Ha. now apply Nat.ltb_lt.
Qed.

Lemma phase_timeout k t ok st :
  Phase k st -> timerPending t st = true ->
  length (timers (reconnectCallback ok (clearTimeout t st))) = length (timers st) /\
  Phase k (reconnectCallback ok (clearTimeout t st)).
Proof.
  intros Hp Ht.
  destruct (Phase_waiting k t st Hp Ht) as (Hcl & Hothers & Hk & Ha).
  assert (Hnone : forall i, timerPending i (clearTimeout t st) = false).
  { intros i. rewrite timerPending_clearTimeout.
    destruct (decide (i = t)); [reflexivity | now apply Hothers]. }
  unfold reconnectCallback, connect.
  cbn [reconnectAttemptsRef set_reconnectAttemptsRef clearTimeout set_timers].
  destruct (maxReconnectAttempts <=? reconnectAttemptsRef st + 1)%nat eqn:E;
    [|destruct ok].
  - split; [cbn; apply length_alter|].
    apply AtRest.
    + intros i r. rewrite (readyStateOf_ext i _ st) by reflexivity. apply Hcl.
    + intros i. rewrite (timerPending_ext i (clearTimeout t st)) by reflexivity.
      apply Hnone.
  - split; [cbn; apply length_alter|].
    apply Nat.leb_gt in E.
    cbn [newWebSocket sockets set_sockets].
    match goal with |- Phase _ ?X => set (st' := X) end.
    assert (Hrs : forall i, readyStateOf i st' = readyStateOf i (snd (newWebSocket st)))
      by (intros i; apply readyStateOf_ext; reflexivity).
    apply (Live k st' (length (sockets st))).
    + reflexivity.
    + intros i r. rewrite Hrs, readyStateOf_newWebSocket.
      destruct (decide (i = length (sockets st))) as [->|Hne]; [congruence|].
      intros Hi _. apply (Hcl i r Hi). discriminate.
    + left. rewrite Hrs, readyStateOf_newWebSocket.
      now destruct (decide (length (sockets st) = length (sockets st))).
    + intros i. rewrite (timerPending_ext i (clearTimeout t st)) by reflexivity.
      apply Hnone.
    + subst st'. cbn. lia.
    + lia.
  - split; [cbn; apply length_alter|].
    apply AtRest.
    + intros i r. rewrite (readyStateOf_ext i _ st) by reflexivity. apply Hcl.
    + intros i. rewrite (timerPending_ext i (clearTimeout t st)) by reflexivity.
      apply Hnone.
Qed.

Lemma step_phase k e st st' :
  Phase k st -> automatic e = true -> step cfg e st = Some st' ->
  Phase (streakFrom k [e]) st'.
Proof.
  intros Hp Ha.
  destruct e as [ok| |m| |s|s d|s|s|t ok]; try discriminate Ha; cbn [step streakFrom].
  - intros [= <-].
    destruct (sendMessage_frame m st) as (H1 & H2 & H3 & H4).
    apply (Phase_ext k st); auto using timerPending_ext.
  - intros [= <-]. now apply (Phase_ext k st).
  - destruct (readyStateOf s st) as [[]|] eqn:E; try discriminate.
    intros [= <-]. now apply (phase_open k).
  - destruct (readyStateOf s st) as [[]|] eqn:E; try discriminate.
    intros [= <-].
    destruct (onmessage_frame d st) as (H1 & H2 & H3 & _ & H4).
    apply (Phase_ext k st); auto using timerPending_ext.
  - destruct (readyStateOf s st) as [[]|] eqn:E; try discriminate;
      intros [= <-]; now apply (Phase_ext k st).
  - destruct (readyStateOf s st) as [[]|] eqn:E; try discriminate;
      intros [= <-]; eapply phase_close; eauto; discriminate.
  - destruct (timerPending t st) eqn:E; [|discriminate].
    intros [= <-]. now apply phase_timeout.
Qed.

Lemma run_phase evs : forall k st st',
  Phase k st -> forallb automatic evs = true -> run cfg evs st = Some st' ->
  Phase (streakFrom k evs) st'.
Proof.
  induction evs as [|e evs IH]; intros k st st' Hp Ha; cbn [run].
  - now intros [= <-].
  - cbn [forallb] in Ha. apply andb_prop in Ha as [He Ha].
    destruct (step cfg e st) as [st1|] eqn:E; [|discriminate].
    intros Hrun.
    pose proof (step_phase k e st st1 Hp He E) as Hp1.
    specialize (IH _ _ _ Hp1 Ha Hrun).
    destruct e; exact IH.
Qed.

Lemma mounted_phase ok : Phase (A:=A) 0 (mounted ok).
Proof.
  destruct ok.
  - apply (Live 0 _ 0); try reflexivity.
    + intros [|i] r; cbn; [congruence | discriminate].
    + now left.
    + intros t. reflexivity.
    + unfold maxReconnectAttempts. lia.
  - apply AtRest.
    + intros i r. discriminate.
    + intros t. reflexivity.
Qed.

(** At the ceiling [onclose] schedules nothing. *)
Lemma onclose_at_ceiling st :
  (maxReconnectAttempts <= reconnectAttemptsRef st)%nat ->
  onclose st = setConnected false st.
Proof.
  intros H. unfold onclose. cbn [reconnectAttemptsRef setConnected].
  apply Nat.ltb_ge in H. now rewrite H.
Qed.



(** In such a run a socket that is not closed is the current one, so
    at most one channel exists and messages arrive on [wsRef]. *)
Lemma automatic_run_current_channel ok (evs : list (Event A)) st s r :
  forallb automatic evs = true ->
  run cfg evs (mounted ok) = Some st ->
  readyStateOf s st = Some r -> r <> CLOSED ->
  wsRef st = Some s.
Proof.
  intros Hevs Hrun Hs Hr.
  pose proof (run_phase evs 0%nat _ st (mounted_phase ok) Hevs Hrun) as Hp.
  now destruct (Phase_live _ s r st Hp Hs Hr).
Qed.

End Backoff.

(** Five failures in a row, each followed by its retry timer: the five
    delays, and the state of rest that the fifth timer leaves. *)
Example five_failures_then_rest :
  let round i := [UseWebSocket.EvClose i; UseWebSocket.EvTimeout i true] in
  exists st : UseWebSocket.State unit,
    UseWebSocket.run gameConfig (concat (map round (seq 0 5))) (UseWebSocket.mounted true)
      = Some st /\
    map UseWebSocket.delay (UseWebSocket.timers st) = [1000; 2000; 4000; 8000; 16000] /\
    UseWebSocket.pendingTimers st = [] /\
    UseWebSocket.liveChannels st = 0%nat /\
    length (UseWebSocket.sockets st) = 5%nat /\
    UseWebSocket.reconnectAttemptsRef st = 5%nat /\
    UseWebSocket.error st = Some UseWebSocket.msgMaxAttempts.
Proof.
  eexists. split; [vm_compute; reflexivity|]. repeat split.
Qed.

(** After two failures an open resets the schedule. *)
Example open_resets_schedule :
  exists st : UseWebSocket.State unit,
    UseWebSocket.run gameConfig
      [UseWebSocket.EvClose 0; UseWebSocket.EvTimeout 0 true;
       UseWebSocket.EvClose 1; UseWebSocket.EvTimeout 1 true;
       UseWebSocket.EvOpen 2; UseWebSocket.EvClose 2]
      (UseWebSocket.mounted true) = Some st /\
    map UseWebSocket.delay (UseWebSocket.timers st) = [1000; 2000; 1000].
Proof.
  eexists. split; [vm_compute; reflexivity|]. reflexivity.
Qed.



(** * Further properties *)

(** ** useWebSocket: the buffer and the handlers in arbitrary runs *)

Section HookBuffer.

Import UseWebSocket.
Context {A : Type}.
Variable cfg : GameConfig.
Hypothesis limit_nonneg : 0 <= liveFeedLimit (ui cfg).

Implicit Types st : State A.

Lemma crossings_connect ok st : crossings (connect ok st) = crossings st.
Proof.
unfold connect.
destruct (maxReconnectAttempts <=? reconnectAttemptsRef st)%nat; [reflexivity|].
now destruct ok.
Qed.

Lemma crossings_disconnect st : crossings (disconnect st) = crossings st.
Proof.
unfold disconnect.
destruct (reconnectTimeoutRef st) as [t|]; cbn [wsRef clearTimeout set_timers];
  destruct (wsRef st) as [s|]; cbn [crossings setConnected set_wsRef]; trivial;
  unfold ws_close;
  match goal with |- context [readyStateOf ?s ?x] =>
    destruct (readyStateOf s x) as [[]|] end; reflexivity.
Qed.

Lemma crossings_sendMessage m st : crossings (sendMessage m st) = crossings st.
Proof.
unfold sendMessage. destruct (wsRef st); [|reflexivity].
now destruct (currentIsOpen st).
Qed.

Lemma crossings_onclose st : crossings (onclose st) = crossings st.
Proof.
unfold onclose. cbn [reconnectAttemptsRef setConnected].
now destruct (reconnectAttemptsRef st <? maxReconnectAttempts)%nat.
Qed.

Lemma crossings_onmessage d st :
  crossings (onmessage cfg d st) = crossings st \/
  (length (crossings (onmessage cfg d st)) <= Z.to_nat (liveFeedLimit (ui cfg)))%nat.
Proof.
destruct d as [[ty p]|]; [|now left].
unfold onmessage. cbn [type payload].
destruct (ty =? "crossing")%string.
{ right. cbn [crossings setCrossings].
  rewrite slice_from_start by assumption. rewrite length_take. lia. }
destruct (ty =? "history")%string.
{ destruct p as [a|items]; [now left|right]. cbn [crossings setCrossings].
  rewrite slice_from_start by assumption. rewrite length_take. lia. }
destruct (ty =? "stats")%string; [now left|].
destruct (ty =? "ping")%string; [|now left].
left. destruct (wsRef st); [|reflexivity]. now destruct (currentIsOpen st).
Qed.

Lemma step_crossings e st st' :
  step cfg e st = Some st' ->
  crossings st' = crossings st \/
  (length (crossings st') <= Z.to_nat (liveFeedLimit (ui cfg)))%nat.
Proof.
destruct e as [ok| |m| |s|s d|s|s|t ok]; cbn [step].
- intros [= <-]. left. apply crossings_connect.
- intros [= <-]. left. apply crossings_disconnect.
- intros [= <-]. left. apply crossings_sendMessage.
- intros [= <-]. right. cbn. lia.
- destruct (readyStateOf s st) as [[]|]; try discriminate. intros [= <-]. now left.
- destruct (readyStateOf s st) as [[]|]; try discriminate. intros [= <-].
  apply crossings_onmessage.
- destruct (readyStateOf s st) as [[]|]; try discriminate; intros [= <-]; now left.
- destruct (readyStateOf s st) as [[]|]; try discriminate; intros [= <-]; left;
    now rewrite crossings_onclose.
- destruct (timerPending t st); [|discriminate]. intros [= <-]. left.
  unfold reconnectCallback. now rewrite crossings_connect.
Qed.

End HookBuffer.

(** X1. Whatever happens to the hook (messages of any kind, closes,
    retries, calls of [connect], [disconnect], [sendMessage],
    [clearCrossings], in any order), a buffer that is within the limit
    stays within the limit; in particular the buffer of a hook that
    started fresh never holds more than [liveFeedLimit] entries. *)
Theorem feed_never_exceeds_limit {A : Type} (cfg : GameConfig)
    (evs : list (UseWebSocket.Event A)) (st0 st : UseWebSocket.State A) :
  0 <= liveFeedLimit (ui cfg) ->
  (length (UseWebSocket.crossings st0) <= Z.to_nat (liveFeedLimit (ui cfg)))%nat ->
  UseWebSocket.run cfg evs st0 = Some st ->
  (length (UseWebSocket.crossings st) <= Z.to_nat (liveFeedLimit (ui cfg)))%nat.
Proof.
intros Hn. revert st0.
induction evs as [|e evs IH]; intros st0 H0; cbn [UseWebSocket.run].
- now intros [= <-].
- destruct (UseWebSocket.step cfg e st0) as [st1|] eqn:E; [|discriminate].
  apply IH.
  destruct (step_crossings cfg Hn e st0 st1 E) as [->|H]; assumption.
Qed.

(** A fresh hook that receives a history of 30 entries and then three
    crossings, with a failure and a manual reconnect in between. *)
Lemma feed_never_exceeds_limit_witness :
  let history := Some (UseWebSocket.mkData "history"
                         (UseWebSocket.JArray (map UseWebSocket.JAtom (seq 0 30)))) in
  let crossing n := Some (UseWebSocket.mkData "crossing" (UseWebSocket.JAtom n)) in
  let evs := [UseWebSocket.EvConnect true; UseWebSocket.EvOpen 0;
              UseWebSocket.EvMessage 0 history; UseWebSocket.EvMessage 0 (crossing 100%nat);
              UseWebSocket.EvClose 0; UseWebSocket.EvConnect true; UseWebSocket.EvOpen 1;
              UseWebSocket.EvMessage 1 (crossing 101%nat)] in
  exists st, UseWebSocket.run gameConfig evs UseWebSocket.fresh = Some st /\
             (length (UseWebSocket.crossings st) <= 20)%nat.
Proof.
intros history crossing evs.
destruct (UseWebSocket.run gameConfig evs UseWebSocket.fresh) as [st|] eqn:Hrun;
  [|vm_compute in Hrun; discriminate Hrun].
exists st. split; [reflexivity|].
apply (feed_never_exceeds_limit gameConfig evs UseWebSocket.fresh st).
- cbn. lia.
- cbn. lia.
- exact Hrun.
Defined.

(** X2. Seed, then incremental updates: after a ['history'] message with
    array payload [items] followed by ['crossing'] messages [ps] (oldest
    first), the buffer is the first [liveFeedLimit] entries of the
    crossings, newest first, followed by the history in its given order.
    What the buffer held before the history message plays no part. *)
Theorem history_then_crossings {A : Type} (cfg : GameConfig)
    (items ps : list (UseWebSocket.JsValue A)) (st : UseWebSocket.State A) :
  0 <= liveFeedLimit (ui cfg) ->
  UseWebSocket.crossings
    (UseWebSocket.receiveCrossings cfg ps
       (UseWebSocket.onmessage cfg
          (Some (UseWebSocket.mkData "history" (UseWebSocket.JArray items))) st))
  = take (Z.to_nat (liveFeedLimit (ui cfg))) (rev ps ++ items).
Proof.
intros Hn.
rewrite receiveCrossings_fold by assumption.
unfold UseWebSocket.onmessage at 1.
cbn [UseWebSocket.type UseWebSocket.payload String.eqb Ascii.eqb Bool.eqb
     UseWebSocket.crossings UseWebSocket.setCrossings].
cbn.
rewrite slice_from_start by assumption.
rewrite prepend_fold by (right; rewrite length_take; lia).
apply take_app_take.
Qed.

(** A history of 30 and two later crossings under the shipped limit. *)
Lemma history_then_crossings_witness :
  let items := map UseWebSocket.JAtom (seq 0 30) in
  let ps := [UseWebSocket.JAtom 100%nat; UseWebSocket.JAtom 101%nat] in
  UseWebSocket.crossings
    (UseWebSocket.receiveCrossings gameConfig ps
       (UseWebSocket.onmessage gameConfig
          (Some (UseWebSocket.mkData "history" (UseWebSocket.JArray items)))
          UseWebSocket.fresh))
  = UseWebSocket.JAtom 101%nat :: UseWebSocket.JAtom 100%nat :: take 18 items.
Proof.
intros items ps.
rewrite (history_then_crossings gameConfig items ps UseWebSocket.fresh); [reflexivity|].
cbn. lia.
Defined.

(** ** useWebSocket: what the handlers leave alone *)

Section HookFrames.

Import UseWebSocket.
Context {A : Type}.

Implicit Types st : State A.

(** Sending on the current channel if it is open: the only socket whose
    frames grow is the current one, and only if it is open. *)
Lemma sentOn_reply (f : Frame) st s :
  sentOn s (match wsRef st with
            | Some c => if currentIsOpen st then ws_send c f st else st
            | None => st
            end)
  = sentOn s st ++
    (if bool_decide (wsRef st = Some s) && bool_decide (readyStateOf s st = Some OPEN)
     then [f] else []).
Proof.
unfold currentIsOpen.
destruct (wsRef st) as [c|]; [|cbn; now rewrite app_nil_r].
case_bool_decide as Hopen.
- rewrite sentOn_ws_send.
  destruct (decide (s = c)) as [->|Hne].
  + rewrite !bool_decide_eq_true_2; trivial.
    unfold readyStateOf in Hopen.
    destruct (sockets st !! c); [eauto | discriminate].
  + rewrite (bool_decide_eq_false_2 (s = c)) by assumption.
    rewrite (bool_decide_eq_false_2 (Some c = Some s)) by congruence.
    cbn [andb]. now rewrite app_nil_r.
- destruct (decide (s = c)) as [->|Hne].
  + rewrite (bool_decide_eq_false_2 _ Hopen), andb_false_r. now rewrite app_nil_r.
  + rewrite (bool_decide_eq_false_2 (Some c = Some s)) by congruence.
    cbn [andb]. now rewrite app_nil_r.
Qed.

Lemma disconnect_unfold st :
  disconnect st
  = mkState (crossings st) false (error st) None (reconnectTimeoutRef st)
      (reconnectAttemptsRef st)
      (match wsRef st with
       | Some s => sockets (ws_close s st)
       | None => sockets st
       end)
      (match reconnectTimeoutRef st with
       | Some t => timers (clearTimeout t st)
       | None => timers st
       end).
Proof.
assert (Hclose : forall (s : nat) (x : State A),
          set_wsRef None (ws_close s x)
          = mkState (crossings x) (connected x) (error x) None (reconnectTimeoutRef x)
              (reconnectAttemptsRef x) (sockets (ws_close s x)) (timers x)).
{ intros s x. unfold ws_close.
  destruct (readyStateOf s x) as [[]|]; reflexivity. }
unfold disconnect.
destruct (reconnectTimeoutRef st) as [t|] eqn:Et.
- cbn [wsRef clearTimeout set_timers].
  destruct (wsRef st) as [s|] eqn:Es.
  + rewrite Hclose. unfold setConnected.
    cbn [crossings connected error wsRef reconnectTimeoutRef reconnectAttemptsRef
         sockets timers clearTimeout set_timers].
    rewrite ?Et. f_equal.
    unfold ws_close, readyStateOf. cbn [sockets clearTimeout set_timers].
    destruct (sockets st !! s) as [[[] ?]|]; reflexivity.
  + unfold setConnected, clearTimeout, set_timers.
    cbn [crossings connected error wsRef reconnectTimeoutRef reconnectAttemptsRef
         sockets timers].
    now rewrite ?Et, ?Es.
- destruct (wsRef st) as [s|] eqn:Es.
  + rewrite Hclose. unfold setConnected, clearTimeout, set_timers.
    cbn [crossings connected error wsRef reconnectTimeoutRef reconnectAttemptsRef
         sockets timers].
    now rewrite ?Et, ?Es.
  + unfold setConnected, clearTimeout, set_timers.
    cbn [crossings connected error wsRef reconnectTimeoutRef reconnectAttemptsRef
         sockets timers].
    now rewrite ?Et, ?Es.
Qed.

Lemma sentOn_setReadyState s c r st :
  sentOn s (setReadyState c r st) = sentOn s st.
Proof.
unfold sentOn, setReadyState, set_sockets. cbn [sockets].
destruct (decide (s = c)) as [->|Hne].
- rewrite list_lookup_alter_eq. now destruct (sockets st !! c).
- now rewrite list_lookup_alter_ne by congruence.
Qed.

Lemma sentOn_ws_close s c st : sentOn s (ws_close c st) = sentOn s st.
Proof.
unfold ws_close.
destruct (readyStateOf c st) as [[]|]; trivial; apply sentOn_setReadyState.
Qed.

Lemma readyStateOf_ws_close c st :
  readyStateOf c (ws_close c st)
  = match readyStateOf c st with
    | Some CONNECTING | Some OPEN => Some CLOSING
    | other => other
    end.
Proof.
unfold ws_close.
destruct (readyStateOf c st) as [[]|] eqn:E; trivial;
  rewrite readyStateOf_setReadyState, E; now destruct (decide (c = c)).
Qed.

Lemma clearTimeout_twice t st :
  timers (clearTimeout t (clearTimeout t st)) = timers (clearTimeout t st).
Proof.
unfold clearTimeout, set_timers. cbn [timers].
rewrite list_alter_alter_eq. now apply list_alter_ext.
Qed.

End HookFrames.


(** X4. [sendMessage] appends its message to the frames of exactly one
    socket, the current one, and only if that socket is open; in every
    other case the message is dropped without a trace.  It changes no
    other part of the state, and after [disconnect] it always drops. *)
Theorem sendMessage_only_when_open {A : Type}
    (message : string) (st : UseWebSocket.State A) :
  let st' := UseWebSocket.sendMessage message st in
  (forall s,
     UseWebSocket.sentOn s st'
     = UseWebSocket.sentOn s st ++
       (if bool_decide (UseWebSocket.wsRef st = Some s) &&
           bool_decide (UseWebSocket.readyStateOf s st = Some UseWebSocket.OPEN)
        then [UseWebSocket.ClientMessage message] else [])) /\
  (forall s, UseWebSocket.readyStateOf s st' = UseWebSocket.readyStateOf s st) /\
  UseWebSocket.crossings st' = UseWebSocket.crossings st /\
  UseWebSocket.connected st' = UseWebSocket.connected st /\
  UseWebSocket.error st' = UseWebSocket.error st /\
  UseWebSocket.wsRef st' = UseWebSocket.wsRef st /\
  UseWebSocket.timers st' = UseWebSocket.timers st /\
  UseWebSocket.reconnectAttemptsRef st' = UseWebSocket.reconnectAttemptsRef st /\
  UseWebSocket.sendMessage message (UseWebSocket.disconnect st)
    = UseWebSocket.disconnect st.
Proof.
intros st'. split.
{ intros s. apply (sentOn_reply (UseWebSocket.ClientMessage message) st s). }
split.
{ intros s. subst st'. unfold UseWebSocket.sendMessage.
  destruct (UseWebSocket.wsRef st); [|reflexivity].
  destruct (UseWebSocket.currentIsOpen st); [|reflexivity].
  apply readyStateOf_ws_send. }
split; [apply crossings_sendMessage|].
subst st'. unfold UseWebSocket.sendMessage at 1 2 3 4 5.
destruct (UseWebSocket.wsRef st) as [c|] eqn:Ec;
  [destruct (UseWebSocket.currentIsOpen st)|];
  (repeat (split; [first [reflexivity | exact Ec]|]));
  rewrite disconnect_unfold; reflexivity.
Qed.

(** X5. [disconnect] leaves no current socket and a cleared connected
    flag; the timer it knows of is no longer pending; the socket that
    was current goes from connecting or open to closing and is otherwise
    left as it was; nothing is sent, the buffer and the attempt counter
    are kept.  Calling it a second time changes nothing, and a ping
    delivered afterwards is not answered. *)
Theorem disconnect_idempotent {A : Type} (cfg : GameConfig)
    (st : UseWebSocket.State A) :
  let st' := UseWebSocket.disconnect st in
  UseWebSocket.disconnect st' = st' /\
  UseWebSocket.wsRef st' = None /\
  UseWebSocket.connected st' = false /\
  UseWebSocket.crossings st' = UseWebSocket.crossings st /\
  UseWebSocket.reconnectAttemptsRef st' = UseWebSocket.reconnectAttemptsRef st /\
  (forall s, UseWebSocket.sentOn s st' = UseWebSocket.sentOn s st) /\
  (forall s d, UseWebSocket.sentOn s (UseWebSocket.onmessage cfg d st')
               = UseWebSocket.sentOn s st) /\
  match UseWebSocket.reconnectTimeoutRef st with
  | Some t => UseWebSocket.timerPending t st' = false
  | None => UseWebSocket.timers st' = UseWebSocket.timers st
  end /\
  match UseWebSocket.wsRef st with
  | Some c =>
      UseWebSocket.readyStateOf c st'
      = match UseWebSocket.readyStateOf c st with
        | Some UseWebSocket.CONNECTING | Some UseWebSocket.OPEN =>
            Some UseWebSocket.CLOSING
        | other => other
        end
  | None => UseWebSocket.sockets st' = UseWebSocket.sockets st
  end.
Proof.
intros st'.
assert (Hsent : forall s, UseWebSocket.sentOn s st' = UseWebSocket.sentOn s st).
{ intros s. subst st'. rewrite disconnect_unfold.
  destruct (UseWebSocket.wsRef st) as [c|]; [|reflexivity].
  rewrite <- (sentOn_ws_close s c st). now apply sentOn_ext. }
split.
{ subst st'. rewrite (disconnect_unfold (UseWebSocket.disconnect st)).
  rewrite !(disconnect_unfold st).
  cbn [UseWebSocket.crossings UseWebSocket.connected UseWebSocket.error
       UseWebSocket.wsRef UseWebSocket.reconnectTimeoutRef
       UseWebSocket.reconnectAttemptsRef UseWebSocket.sockets UseWebSocket.timers].
  f_equal.
  destruct (UseWebSocket.reconnectTimeoutRef st) as [t|]; [|reflexivity].
  unfold UseWebSocket.clearTimeout, UseWebSocket.set_timers.
  cbn [UseWebSocket.timers].
  rewrite list_alter_alter_eq. now apply list_alter_ext. }
subst st'. rewrite !(disconnect_unfold st) in *.
cbn [UseWebSocket.crossings UseWebSocket.connected UseWebSocket.wsRef
     UseWebSocket.reconnectAttemptsRef UseWebSocket.timers].
do 4 (split; [reflexivity|]).
split; [exact Hsent|]. split.
{ intros s d. rewrite <- (Hsent s). apply sentOn_ext.
  now rewrite onmessage_sockets. }
split.
- destruct (UseWebSocket.reconnectTimeoutRef st) as [t|]; [|reflexivity].
  rewrite (timerPending_ext t (UseWebSocket.clearTimeout t st)) by reflexivity.
  rewrite timerPending_clearTimeout. now destruct (decide (t = t)).
- destruct (UseWebSocket.wsRef st) as [c|]; [|reflexivity].
  rewrite (readyStateOf_ext c _ (UseWebSocket.ws_close c st)) by reflexivity.
  apply readyStateOf_ws_close.
Qed.

(** ** useWebSocket: what a run without extra calls never reaches *)

Section Counting.

Context {T : Type} (P : T -> Prop) `{!forall x, Decision (P x)}.

Lemma filter_none (l : list T) :
  (forall i x, l !! i = Some x -> ~ P x) -> filter P l = [].
Proof.
induction l as [|a l IH]; intros HP; [reflexivity|].
rewrite filter_cons_False by exact (HP 0%nat a eq_refl).
apply IH. intros i x Hi. exact (HP (S i) x Hi).
Qed.

Lemma filter_at_most_one (l : list T) : forall c : nat,
  (forall i x, l !! i = Some x -> P x -> i = c) ->
  (length (filter P l) <= 1)%nat.
Proof.
induction l as [|a l IH]; intros c HP; [cbn; lia|].
destruct (decide (P a)) as [Ha|Ha].
- rewrite filter_cons_True by assumption.
  pose proof (HP 0%nat a eq_refl Ha) as Hc.
  rewrite filter_none; [cbn; lia|].
  intros i x Hi Hx. specialize (HP (S i) x Hi Hx). lia.
- rewrite filter_cons_False by assumption.
  apply (IH (Nat.pred c)). intros i x Hi Hx.
  specialize (HP (S i) x Hi Hx). lia.
Qed.

End Counting.

Section AutomaticRuns.

Import UseWebSocket.
Context {A : Type}.
Variable cfg : GameConfig.

Implicit Types st : State A.

Lemma closed_not_live st i x (c : option nat) :
  closedExcept c st -> sockets st !! i = Some x -> Some i <> c ->
  ~ isLive x = true.
Proof.
intros Hc Hx Hi. unfold closedExcept, readyStateOf in Hc.
specialize (Hc i (readyState x)). rewrite Hx in Hc.
unfold isLive. rewrite (Hc eq_refl Hi). discriminate.
Qed.

Lemma not_pending st t k :
  timerPending t st = false -> timers st !! t = Some k -> ~ pending k = true.
Proof.
unfold timerPending. intros H Hk. rewrite Hk in H. congruence.
Qed.

Lemma Phase_counts k st :
  Phase k st -> (liveChannels st + length (pendingTimers st) <= 1)%nat.
Proof.
unfold liveChannels, pendingTimers.
intros [c H1 H2 H3 H4 H5 H6|t H1 H2 H3 H4 H5|H1 H2].
- rewrite (filter_none _ (timers st))
    by (intros i x Hx; eapply not_pending; eauto).
  pose proof (filter_at_most_one (fun k => isLive k = true) (sockets st) c) as Hl.
  cbn [length]. rewrite Nat.add_0_r. apply Hl.
  intros i x Hx Hlive. destruct (decide (i = c)) as [|Hne]; [assumption|].
  exfalso. apply (closed_not_live st i x (Some c)); auto. congruence.
- rewrite (filter_none _ (sockets st))
    by (intros i x Hx; eapply closed_not_live; eauto; discriminate).
  pose proof (filter_at_most_one (fun k => pending k = true) (timers st) t) as Hl.
  cbn [length plus]. apply Hl.
  intros i x Hx Hp. destruct (decide (i = t)) as [|Hne]; [assumption|].
  exfalso. apply (not_pending st i x); auto.
- rewrite (filter_none _ (sockets st))
    by (intros i x Hx; eapply closed_not_live; eauto; discriminate).
  rewrite (filter_none _ (timers st))
    by (intros i x Hx; eapply not_pending; eauto).
  cbn. lia.
Qed.

Import HookInvariants.

Lemma error_sendMessage m st : error (sendMessage m st) = error st.
Proof.
unfold sendMessage. destruct (wsRef st); [|reflexivity].
now destruct (currentIsOpen st).
Qed.

Lemma error_onmessage d st : error (onmessage cfg d st) = error st.
Proof.
destruct d as [[ty p]|]; [|reflexivity].
unfold onmessage. cbn [type payload].
destruct (ty =? "crossing")%string; [reflexivity|].
destruct (ty =? "history")%string; [now destruct p|].
destruct (ty =? "stats")%string; [reflexivity|].
destruct (ty =? "ping")%string; [|reflexivity].
destruct (wsRef st); [|reflexivity]. now destruct (currentIsOpen st).
Qed.

Lemma step_ceiling k e st st' :
  Phase k st -> ceilingKept st -> automatic e = true ->
  step cfg e st = Some st' -> ceilingKept st'.
Proof.
intros Hp [Hle Herr] Ha.
destruct e as [ok| |m| |s|s d|s|s|t ok]; try discriminate Ha; cbn [step].
- intros [= <-]. destruct (sendMessage_frame m st) as (_ & _ & H & _).
  unfold ceilingKept. now rewrite H, error_sendMessage.
- intros [= <-]. now split.
- destruct (readyStateOf s st) as [[]|]; try discriminate. intros [= <-].
  split; cbn; [lia | discriminate].
- destruct (readyStateOf s st) as [[]|]; try discriminate. intros [= <-].
  destruct (onmessage_frame cfg d st) as (_ & _ & H & _).
  unfold ceilingKept. now rewrite H, error_onmessage.
- destruct (readyStateOf s st) as [r|] eqn:E; [|discriminate].
  intros Hst.
  assert (Hr : r <> CLOSED) by (intros ->; discriminate Hst).
  assert (st' = onerror st) as -> by (destruct r; congruence).
  destruct (Phase_live k s r st Hp E Hr) as (_ & _ & _ & Hk & Hlt).
  split; cbn; [exact Hle|]. unfold maxReconnectAttempts in *. lia.
- destruct (readyStateOf s st) as [r|] eqn:E; [|discriminate].
  intros Hst.
  assert (Hr : r <> CLOSED) by (intros ->; discriminate Hst).
  assert (st' = onclose (setReadyState s CLOSED st)) as ->
    by (destruct r; congruence).
  destruct (Phase_live k s r st Hp E Hr) as (_ & _ & _ & Hk & Hlt).
  assert (Hatt : forall x : State A, reconnectAttemptsRef (onclose x) = reconnectAttemptsRef x).
  { intros x. unfold onclose. cbn [reconnectAttemptsRef setConnected].
    now destruct (reconnectAttemptsRef x <? maxReconnectAttempts)%nat. }
  split; rewrite Hatt; cbn [reconnectAttemptsRef setReadyState set_sockets];
    unfold maxReconnectAttempts in *; lia.
- destruct (timerPending t st) eqn:E; [|discriminate]. intros [= <-].
  destruct (Phase_waiting k t st Hp E) as (_ & _ & _ & Hlt).
  unfold reconnectCallback, connect.
  cbn [reconnectAttemptsRef set_reconnectAttemptsRef clearTimeout set_timers].
  destruct (maxReconnectAttempts <=? reconnectAttemptsRef st + 1)%nat eqn:El;
    [|destruct ok]; split; cbn; unfold maxReconnectAttempts in *;
    try apply Nat.leb_gt in El; try lia; reflexivity.
Qed.

Lemma run_ceiling evs : forall k st st',
  Phase k st -> ceilingKept st -> forallb automatic evs = true ->
  run cfg evs st = Some st' -> ceilingKept st'.
Proof.
induction evs as [|e evs IH]; intros k st st' Hp Hc Ha; cbn [run].
- now intros [= <-].
- cbn [forallb] in Ha. apply andb_prop in Ha as [He Ha].
  destruct (step cfg e st) as [st1|] eqn:E; [|discriminate].
  apply (IH (streakFrom k [e]) st1); trivial.
  + now apply (step_phase cfg k e st).
  + now apply (step_ceiling k e st).
Qed.

Lemma mounted_ceiling ok : ceilingKept (mounted (A:=A) ok).
Proof. destruct ok; split; cbn; unfold maxReconnectAttempts; try lia; discriminate. Qed.

End AutomaticRuns.

(** X6. In a run of the mounted hook without further calls of [connect]
    or [disconnect] there is never more than one socket that is not
    closed, never more than one pending retry timer, and never both at
    once. *)
Theorem one_channel_or_one_retry {A : Type} (cfg : GameConfig) (ok : bool)
    (evs : list (UseWebSocket.Event A)) (st : UseWebSocket.State A) :
  forallb UseWebSocket.automatic evs = true ->
  UseWebSocket.run cfg evs (UseWebSocket.mounted ok) = Some st ->
  (UseWebSocket.liveChannels st + length (UseWebSocket.pendingTimers st) <= 1)%nat.
Proof.
intros Hevs Hrun.
apply (Phase_counts (UseWebSocket.streak evs)).
apply (run_phase cfg evs 0%nat (UseWebSocket.mounted ok) st);
  auto using mounted_phase.
Qed.

(** Two failed attempts, a third that opens, a message and a close. *)
Lemma one_channel_or_one_retry_witness :
  let evs : list (UseWebSocket.Event unit) :=
    [UseWebSocket.EvClose 0; UseWebSocket.EvTimeout 0 true;
     UseWebSocket.EvError 1; UseWebSocket.EvClose 1; UseWebSocket.EvTimeout 1 true;
     UseWebSocket.EvOpen 2; UseWebSocket.EvMessage 2 None; UseWebSocket.EvClose 2] in
  exists st,
    UseWebSocket.run gameConfig evs (UseWebSocket.mounted true) = Some st /\
    (UseWebSocket.liveChannels st + length (UseWebSocket.pendingTimers st) <= 1)%nat.
Proof.
intros evs.
destruct (UseWebSocket.run gameConfig evs (UseWebSocket.mounted true))
  as [st|] eqn:Hrun; [|vm_compute in Hrun; discriminate Hrun].
exists st. split; [reflexivity|].
apply (one_channel_or_one_retry gameConfig true evs st); [reflexivity | exact Hrun].
Defined.

(** X7. In such a run the attempt counter never exceeds 5.  When it is 5
    the hook is at rest: the error shown is the "max reconnection
    attempts" message, no socket is live and no timer is pending. *)
Theorem ceiling_is_terminal {A : Type} (cfg : GameConfig) (ok : bool)
    (evs : list (UseWebSocket.Event A)) (st : UseWebSocket.State A) :
  forallb UseWebSocket.automatic evs = true ->
  UseWebSocket.run cfg evs (UseWebSocket.mounted ok) = Some st ->
  (UseWebSocket.reconnectAttemptsRef st <= 5)%nat /\
  if (UseWebSocket.reconnectAttemptsRef st =? 5)%nat
  then UseWebSocket.error st = Some UseWebSocket.msgMaxAttempts /\
       UseWebSocket.liveChannels st = 0%nat /\
       UseWebSocket.pendingTimers st = []
  else True.
Proof.
intros Hevs Hrun.
assert (Hp : UseWebSocket.Phase (UseWebSocket.streak evs) st)
  by (apply (run_phase cfg evs 0%nat (UseWebSocket.mounted ok) st);
      auto using mounted_phase).
destruct (run_ceiling cfg evs 0%nat (UseWebSocket.mounted ok) st
            (mounted_phase ok) (mounted_ceiling ok) Hevs Hrun) as [Hle Herr].
split; [exact Hle|].
destruct (UseWebSocket.reconnectAttemptsRef st =? 5)%nat eqn:E; [|exact I].
apply Nat.eqb_eq in E. split; [now apply Herr|].
unfold UseWebSocket.liveChannels, UseWebSocket.pendingTimers.
destruct Hp as [c H1 H2 H3 H4 H5 H6|t H1 H2 H3 H4 H5|H1 H2].
- unfold UseWebSocket.maxReconnectAttempts in *. lia.
- unfold UseWebSocket.maxReconnectAttempts in *. lia.
- rewrite (filter_none _ (UseWebSocket.sockets st))
    by (intros i x Hx; eapply closed_not_live; eauto; discriminate).
  rewrite (filter_none _ (UseWebSocket.timers st))
    by (intros i x Hx; eapply not_pending; eauto).
  now split.
Qed.

(** Five failures in a row, each followed by its retry timer. *)
Lemma ceiling_is_terminal_witness :
  let round i := [UseWebSocket.EvClose i; UseWebSocket.EvTimeout i true] in
  let evs : list (UseWebSocket.Event unit) := concat (map round (seq 0 5)) in
  exists st,
    UseWebSocket.run gameConfig evs (UseWebSocket.mounted true) = Some st /\
    UseWebSocket.reconnectAttemptsRef st = 5%nat /\
    UseWebSocket.error st = Some UseWebSocket.msgMaxAttempts.
Proof.
intros round evs.
destruct (UseWebSocket.run gameConfig evs (UseWebSocket.mounted true))
  as [st|] eqn:Hrun; [|vm_compute in Hrun; discriminate Hrun].
exists st. split; [reflexivity|].
destruct (ceiling_is_terminal gameConfig true evs st eq_refl Hrun) as [_ H].
assert (E : UseWebSocket.reconnectAttemptsRef st = 5%nat)
  by (vm_compute in Hrun; injection Hrun as <-; reflexivity).
rewrite E in H. cbn in H. split; [exact E | apply H].
Defined.

(** ** LiveFeed: demo mode, seeding and the generated values *)

Section FeedView.

Import LiveFeed LiveFeedView.
Variable cfg : GameConfig.




Lemma insertNewestFirst_perm (c : Crossing) (l : list Crossing) :
  insertNewestFirst c l ≡ₚ c :: l.
Proof.
induction l as [|x l IH]; [reflexivity|]. cbn [insertNewestFirst].
destruct (timestamp x <=? timestamp c); [reflexivity|].
rewrite IH. apply perm_swap.
Qed.

Lemma sortNewestFirst_perm (l : list Crossing) : sortNewestFirst l ≡ₚ l.
Proof.
induction l as [|x l IH]; [reflexivity|].
change (sortNewestFirst (x :: l)) with (insertNewestFirst x (sortNewestFirst l)).
now rewrite insertNewestFirst_perm, IH.
Qed.

Lemma insertNewestFirst_sorted (c : Crossing) (l : list Crossing) :
  StronglySorted notNewer l -> StronglySorted notNewer (insertNewestFirst c l).
Proof.
induction 1 as [|x l Hs IH Hx]; cbn [insertNewestFirst].
- repeat constructor.
- destruct (timestamp x <=? timestamp c) eqn:E.
  + apply Z.leb_le in E. constructor; [now constructor|].
    constructor; [exact E|].
    eapply Forall_impl; [exact Hx|]. unfold notNewer. intros y Hy. lia.
  + apply Z.leb_gt in E. constructor; [exact IH|].
    rewrite insertNewestFirst_perm. constructor; [unfold notNewer; lia | exact Hx].
Qed.

Lemma sortNewestFirst_sorted (l : list Crossing) :
  StronglySorted notNewer (sortNewestFirst l).
Proof.
induction l as [|x l IH]; [constructor|].
change (sortNewestFirst (x :: l)) with (insertNewestFirst x (sortNewestFirst l)).
now apply insertNewestFirst_sorted.
Qed.

Lemma crossings_tickEffect (r : Q) (st : State) :
  crossings (tickEffect r st) = crossings st.
Proof.
unfold tickEffect. cbn [connected isPaused set_interval].
now destruct (connected st || isPaused st).
Qed.

Lemma seedEffect_within (bound : nat) (env : SeedEnv) (st : State) :
  externalWithin bound (externalCrossings st) ->
  (length (crossings (seedEffect env st)) <= Nat.max 15 bound)%nat.
Proof.
unfold seedEffect, externalWithin.
destruct (externalCrossings st) as [[|x l]|];
  cbn [length Nat.eqb crossings setCrossings default]; intros H.
- rewrite length_sortNewestFirst, length_map, length_seq. lia.
- cbn in H. cbn. lia.
- rewrite length_sortNewestFirst, length_map, length_seq. lia.
Qed.

Lemma step_within (bound : nat) (e : Event) (st st' : State) :
  0 <= liveFeedLimit (ui cfg) ->
  eventWithin bound e ->
  step cfg e st = Some st' ->
  let B := Nat.max 15 (Nat.max (Z.to_nat (liveFeedLimit (ui cfg))) bound) in
  (length (crossings st) <= B)%nat -> (length (crossings st') <= B)%nat.
Proof.
intros Hn He Hstep B Hst. destruct e as [ext env|conn r|r|d]; cbn [step] in Hstep.
- injection Hstep as <-.
  pose proof (seedEffect_within bound env (set_externalCrossings ext st) He). lia.
- case_bool_decide; injection Hstep as <-; [exact Hst|].
  now rewrite crossings_tickEffect.
- injection Hstep as <-. now rewrite crossings_tickEffect.
- destruct (interval st); [|discriminate]. injection Hstep as <-.
  unfold tick. cbn [crossings setCrossings].
  rewrite slice_from_start by assumption. rewrite length_take. lia.
Qed.

End FeedView.



(** X9. The seeding effect shows the given crossings unchanged when
    there are any; otherwise it shows the 15 generated crossings, all of
    them and no others, ordered newest first. *)
Theorem seeding_sorted_newest_first (env : LiveFeed.SeedEnv) (st : LiveFeed.State) :
  match LiveFeed.externalCrossings st with
  | Some (x :: l) => LiveFeed.crossings (LiveFeed.seedEffect env st) = x :: l
  | _ =>
    LiveFeed.crossings (LiveFeed.seedEffect env st) ≡ₚ LiveFeedView.initialData env /\
    StronglySorted LiveFeedView.notNewer (LiveFeed.crossings (LiveFeed.seedEffect env st)) /\
    length (LiveFeed.crossings (LiveFeed.seedEffect env st)) = 15%nat
  end.
Proof.
assert (H : forall s, LiveFeed.externalCrossings s = None \/
                      LiveFeed.externalCrossings s = Some [] ->
  LiveFeed.crossings (LiveFeed.seedEffect env s) ≡ₚ LiveFeedView.initialData env /\
  StronglySorted LiveFeedView.notNewer (LiveFeed.crossings (LiveFeed.seedEffect env s)) /\
  length (LiveFeed.crossings (LiveFeed.seedEffect env s)) = 15%nat).
{ intros s Hs.
  assert (E : LiveFeed.crossings (LiveFeed.seedEffect env s)
              = LiveFeed.sortNewestFirst (LiveFeedView.initialData env))
    by (unfold LiveFeed.seedEffect; destruct Hs as [-> | ->]; reflexivity).
  rewrite E. split; [apply sortNewestFirst_perm|].
  split; [apply sortNewestFirst_sorted|].
  rewrite length_sortNewestFirst. unfold LiveFeedView.initialData.
  now rewrite length_map, length_seq. }
destruct (LiveFeed.externalCrossings st) as [[|x l]|] eqn:E; auto.
unfold LiveFeed.seedEffect. now rewrite E.
Qed.

(** X10. The feed shows at most [max 15 liveFeedLimit] crossings as long
    as the parent never hands over more than that: the seed has 15, a
    demo tick cuts to [liveFeedLimit], and external crossings are shown
    as given. *)
Theorem feed_view_bounded (cfg : GameConfig) (bound : nat)
    (ext : option (list LiveFeed.Crossing)) (conn : bool)
    (env : LiveFeed.SeedEnv) (r : Q)
    (evs : list LiveFeed.Event) (st : LiveFeed.State) :
  0 <= liveFeedLimit (ui cfg) ->
  LiveFeedView.externalWithin bound ext ->
  Forall (LiveFeedView.eventWithin bound) evs ->
  LiveFeed.run cfg evs (LiveFeed.mount ext conn env r) = Some st ->
  (length (LiveFeed.crossings st)
   <= Nat.max 15 (Nat.max (Z.to_nat (liveFeedLimit (ui cfg))) bound))%nat.
Proof.
intros Hn Hext Hevs.
assert (H0 : (length (LiveFeed.crossings (LiveFeed.mount ext conn env r))
              <= Nat.max 15 (Nat.max (Z.to_nat (liveFeedLimit (ui cfg))) bound))%nat).
{ unfold LiveFeed.mount. rewrite crossings_tickEffect.
  pose proof (seedEffect_within bound env
                (LiveFeed.mkState ext conn [] false None) Hext). lia. }
revert H0. generalize (LiveFeed.mount ext conn env r). revert Hevs.
induction evs as [|e evs IH]; intros Hevs s0 H0; cbn [LiveFeed.run].
- now intros [= <-].
- inversion Hevs as [|? ? He Hevs']; subst.
  destruct (LiveFeed.step cfg e s0) as [s1|] eqn:E; [|discriminate].
  apply IH; trivial.
  exact (step_within cfg bound e s0 s1 Hn He E H0).
Qed.

(** The hook's 20 crossings arrive while the demo is running. *)
Lemma feed_view_bounded_witness :
  let env : LiveFeed.SeedEnv :=
    fun i => (LiveFeed.mkDraw (Z.of_nat i # 16) (1 # 2) (1 # 3) 1000 "cr", Z.of_nat i) in
  let d := LiveFeed.mkDraw (3 # 4) (1 # 5) (1 # 7) 2000 "cr_2000_a" in
  let live := map (fun i => LiveFeed.generateMockCrossing (fst (env i))) (seq 0 20) in
  let evs := [LiveFeed.Tick d; LiveFeed.NewCrossings (Some live) env; LiveFeed.Tick d] in
  exists st, LiveFeed.run gameConfig evs (LiveFeed.mount None false env 0) = Some st /\
             (length (LiveFeed.crossings st) <= 20)%nat.
Proof.
intros env d live evs.
destruct (LiveFeed.run gameConfig evs (LiveFeed.mount None false env 0))
  as [st|] eqn:Hrun; [|vm_compute in Hrun; discriminate Hrun].
exists st. split; [reflexivity|].
apply (feed_view_bounded gameConfig 20 None false env 0 evs st).
- cbn. lia.
- exact I.
- repeat constructor.
- exact Hrun.
Defined.

(** X11. The bet amount of a generated crossing is a string with two
    decimals between 0.50 and 10.50. *)
Theorem generated_bet_amount (d : LiveFeed.Draw) :
  LiveFeed.unit_interval (LiveFeed.randBet d) ->
  let b := LiveFeed.betAmount (LiveFeed.generateMockCrossing d) in
  Js.digits b = 2%nat /\ 50 <= Js.scaled b <= 1050.
Proof.
intros [H0 H1] b. subst b.
unfold LiveFeed.generateMockCrossing. cbn [LiveFeed.betAmount].
set (x := (LiveFeed.randBet d * 10 + (1 # 2))%Q).
unfold Js.toFixed.
assert (Hx : (0 <= x)%Q) by (subst x; lra).
apply Qle_bool_iff in Hx. rewrite Hx. cbn [Js.digits Js.scaled].
split; [reflexivity|].
change (inject_Z (10 ^ Z.of_nat 2)) with 100%Q.
split.
- change 50 with (Qfloor (inject_Z 50)). apply Qfloor_resp_le.
  change (inject_Z 50) with 50%Q. subst x. lra.
- pose proof (Qfloor_le (x * 100 + (1 # 2))) as Hf.
  assert (Hlt : (inject_Z (Qfloor (x * 100 + (1 # 2))) < inject_Z 1051)%Q).
  { eapply Qle_lt_trans; [exact Hf|]. change (inject_Z 1051) with 1051%Q.
    subst x. lra. }
  rewrite <- Zlt_Qlt in Hlt. lia.
Qed.

(** The smallest draw gives 0.50. *)
Lemma generated_bet_amount_witness :
  let d := LiveFeed.mkDraw (1 # 2) (9 # 10) 0 1700000000000 "cr_1700000000000_a" in
  LiveFeed.unit_interval (LiveFeed.randBet d) /\
  50 <= Js.scaled (LiveFeed.betAmount (LiveFeed.generateMockCrossing d)) <= 1050.
Proof.
intros d.
assert (H : LiveFeed.unit_interval (LiveFeed.randBet d))
  by (split; [discriminate | reflexivity]).
split; [exact H|]. apply (generated_bet_amount d H).
Defined.

(** X12. The row of lane dots always has five entries; the crossed ones
    come first and there are as many as [lanesCrossed], cut to the range
    0..5: a negative count lights none, a count above five lights all. *)
Theorem lane_indicators_clamped (lanesCrossed : Z) :
  let k := Z.to_nat (Z.min 5 (Z.max 0 lanesCrossed)) in
  LiveFeedView.getLaneIndicators lanesCrossed
  = replicate k true ++ replicate (5 - k) false.
Proof.
intros k. subst k.
change (LiveFeedView.getLaneIndicators lanesCrossed)
  with [0 <? lanesCrossed; 1 <? lanesCrossed; 2 <? lanesCrossed;
        3 <? lanesCrossed; 4 <? lanesCrossed].
destruct (Z.ltb_spec 0 lanesCrossed); destruct (Z.ltb_spec 1 lanesCrossed);
  destruct (Z.ltb_spec 2 lanesCrossed); destruct (Z.ltb_spec 3 lanesCrossed);
  destruct (Z.ltb_spec 4 lanesCrossed); try lia.
- rewrite Z.max_r by lia. rewrite Z.min_l by lia. reflexivity.
- assert (lanesCrossed = 4) as -> by lia. reflexivity.
- assert (lanesCrossed = 3) as -> by lia. reflexivity.
- assert (lanesCrossed = 2) as -> by lia. reflexivity.
- assert (lanesCrossed = 1) as -> by lia. reflexivity.
- rewrite Z.max_l by lia. reflexivity.
Qed.

(** ** useLaneAnalytics *)

Section LaneAnalytics.

Import UseLaneAnalytics.
Variable cfg : GameConfig.

Implicit Types (ld : list LaneDatum) (cs : list Crossing) (c : Crossing).

Lemma crossedBeyond_cons i c cs :
  crossedBeyond i (c :: cs)
  = ((if (Z.of_nat i <? lanesCrossed c)%Z then 1 else 0) + crossedBeyond i cs)%nat.
Proof.
unfold crossedBeyond. rewrite filter_cons.
destruct (Z.ltb_spec (Z.of_nat i) (lanesCrossed c));
  destruct (decide _); try lia; reflexivity.
Qed.

Lemma hitAt_cons i c cs :
  hitAt i (c :: cs)
  = ((if (outcome c =? "hit")%string && (lanesCrossed c =? Z.of_nat i)%Z then 1 else 0)
     + hitAt i cs)%nat.
Proof.
unfold hitAt. rewrite filter_cons.
destruct (String.eqb_spec (outcome c) "hit");
  destruct (Z.eqb_spec (lanesCrossed c) (Z.of_nat i));
  destruct (decide _) as [[? ?]|]; cbn [andb]; try reflexivity; try tauto.
Qed.

Lemma imap_ext_lookup {X Y : Type} (f g : nat -> X -> Y) (l : list X) :
  (forall i x, l !! i = Some x -> f i x = g i x) -> imap f l = imap g l.
Proof.
intros H. apply list_eq. intros i. rewrite !list_lookup_imap.
destruct (l !! i) as [x|] eqn:E; [|reflexivity]. cbn. now rewrite (H i x E).
Qed.

Lemma alter_imap {X : Type} (h : X -> X) (f : nat -> X -> X) (j : nat) (l : list X) :
  alter h j (imap f l) = imap (fun i x => if decide (i = j) then h (f i x) else f i x) l.
Proof.
apply list_eq. intros i. rewrite list_lookup_imap.
destruct (decide (i = j)) as [->|Hne].
- rewrite list_lookup_alter_eq, list_lookup_imap.
  destruct (l !! j); cbn; [|reflexivity]. now destruct (decide (j = j)).
- rewrite list_lookup_alter_ne by congruence. rewrite list_lookup_imap.
  destruct (l !! i); cbn; [|reflexivity]. now destruct (decide (i = j)).
Qed.

Lemma incAttempts_Some i ld :
  (i < length ld)%nat ->
  incAttempts i ld
  = Some (alter (fun r => mkLaneDatum (lane r) (label r) (attempts r + 1) (success r)
                                       (successRate r)) i ld).
Proof.
intros H. unfold incAttempts.
destruct (lookup_lt_is_Some_2 ld i H) as [r ->]. reflexivity.
Qed.

Lemma incSuccess_Some i ld :
  (i < length ld)%nat ->
  incSuccess i ld
  = Some (alter (fun r => mkLaneDatum (lane r) (label r) (attempts r) (success r + 1)
                                       (successRate r)) i ld).
Proof.
intros H. unfold incSuccess.
destruct (lookup_lt_is_Some_2 ld i H) as [r ->]. reflexivity.
Qed.

Lemma incAttempts_None i ld : (length ld <= i)%nat -> incAttempts i ld = None.
Proof.
intros H. unfold incAttempts. now rewrite lookup_ge_None_2.
Qed.

(** Once an exception is thrown the rest of the loop is skipped. *)
Lemma thrown_stays {X Y : Type} (f : Y -> X -> option Y) (l : list X) :
  foldl (fun (acc : option Y) x => acc ≫= fun y => f y x) None l = None.
Proof. induction l as [|x l IH]; [reflexivity | exact IH]. Qed.

(** The inner loop over the first [n] lanes. *)
Lemma lanes_loop (n : nat) ld :
  foldl (fun (acc : option (list LaneDatum)) i => (acc ≫= incAttempts i) ≫= incSuccess i)
        (Some ld) (seq 0 n)
  = if decide (n <= length ld)%nat
    then Some (imap (fun i r =>
                 if (i <? n)%nat
                 then mkLaneDatum (lane r) (label r) (attempts r + 1) (success r + 1)
                                  (successRate r)
                 else r) ld)
    else None.
Proof.
induction n as [|n IH].
- cbn [seq foldl]. destruct (decide _) as [_|]; [|lia].
  f_equal. apply list_eq. intros i. rewrite list_lookup_imap.
  now destruct (ld !! i).
- rewrite seq_S, foldl_app, IH. cbn [foldl Nat.add].
  destruct (decide (n <= length ld)%nat) as [Hn|Hn];
    destruct (decide (S n <= length ld)%nat) as [HS|HS]; try lia; try reflexivity.
  + cbn [mbind option_bind].
    rewrite incAttempts_Some by (rewrite length_imap; lia). cbn [mbind option_bind].
    rewrite incSuccess_Some by (rewrite length_alter, length_imap; lia).
    f_equal. apply list_eq. intros i. rewrite list_lookup_imap.
    destruct (decide (i = n)) as [->|Hne].
    * rewrite !list_lookup_alter_eq, list_lookup_imap.
      destruct (Nat.ltb_spec n n); destruct (Nat.ltb_spec n (S n)); try lia.
      now destruct (ld !! n).
    * rewrite !list_lookup_alter_ne by congruence. rewrite list_lookup_imap.
      destruct (Nat.ltb_spec i n); destruct (Nat.ltb_spec i (S n)); try lia;
        now destruct (ld !! i).
  + cbn [mbind option_bind].
    now rewrite incAttempts_None by (rewrite length_imap; lia).
Qed.

Lemma seen_one c i r :
  seen [c] i r
  = mkLaneDatum (lane r) (label r)
      (attempts r + (if (Z.of_nat i <? lanesCrossed c)%Z then 1 else 0)
       + (if (outcome c =? "hit")%string && (lanesCrossed c =? Z.of_nat i)%Z then 1 else 0))
      (success r + (if (Z.of_nat i <? lanesCrossed c)%Z then 1 else 0))
      (successRate r).
Proof.
unfold seen. rewrite crossedBeyond_cons, hitAt_cons.
unfold crossedBeyond, hitAt. cbn [filter list_filter length]. f_equal; lia.
Qed.

Lemma seen_cons c cs i r : seen cs i (seen [c] i r) = seen (c :: cs) i r.
Proof.
unfold seen. cbn [lane label attempts success successRate].
rewrite (crossedBeyond_cons i c cs), (hitAt_cons i c cs).
rewrite (crossedBeyond_cons i c []), (hitAt_cons i c []).
unfold crossedBeyond, hitAt. cbn [filter list_filter length]. f_equal; lia.
Qed.

Lemma inRange_true c :
  inRange cfg c = true <->
  lanesCrossed c <= maxLanes cfg /\ (outcome c = "hit" -> 0 <= lanesCrossed c).
Proof.
unfold inRange. rewrite andb_true_iff, orb_true_iff, negb_true_iff.
rewrite Z.leb_le, Z.leb_le, String.eqb_neq.
destruct (decide (outcome c = "hit")); tauto.
Qed.

Lemma recordCrossing_inRange ld c :
  length ld = Z.to_nat (maxLanes cfg) -> inRange cfg c = true ->
  recordCrossing cfg ld c = Some (imap (seen [c]) ld).
Proof.
intros Hlen Hc. apply inRange_true in Hc as [Hmax Hhit].
unfold recordCrossing, crossedLanes. rewrite lanes_loop.
destruct (decide _) as [_|Hn]; [|lia]. cbn [mbind option_bind].
destruct ((outcome c =? "hit")%string && (lanesCrossed c <? maxLanes cfg)) eqn:E.
- apply andb_prop in E as [Eh El].
  apply String.eqb_eq in Eh. apply Z.ltb_lt in El. specialize (Hhit Eh).
  destruct (Z.ltb_spec (lanesCrossed c) 0); [lia|].
  rewrite incAttempts_Some by (rewrite length_imap; lia).
  f_equal. rewrite alter_imap. apply imap_ext_lookup. intros i r _.
  rewrite seen_one, Eh. cbn [String.eqb Ascii.eqb Bool.eqb andb].
  destruct (decide (i = Z.to_nat (lanesCrossed c))) as [->|Hne].
  + rewrite Nat.ltb_irrefl.
    destruct (Z.ltb_spec (Z.of_nat (Z.to_nat (lanesCrossed c))) (lanesCrossed c)); [lia|].
    destruct (Z.eqb_spec (lanesCrossed c) (Z.of_nat (Z.to_nat (lanesCrossed c)))); [|lia].
    f_equal; lia.
  + destruct (Z.eqb_spec (lanesCrossed c) (Z.of_nat i)); [lia|].
    destruct (Nat.ltb_spec i (Z.to_nat (lanesCrossed c)));
      destruct (Z.ltb_spec (Z.of_nat i) (lanesCrossed c)); try lia;
      destruct r; cbn; f_equal; lia.
- f_equal. apply imap_ext_lookup. intros i r Hi. rewrite seen_one.
  apply lookup_lt_Some in Hi.
  assert (Hz : (outcome c =? "hit")%string && (lanesCrossed c =? Z.of_nat i) = false).
  { destruct (String.eqb_spec (outcome c) "hit") as [Eh|]; [|reflexivity].
    cbn [andb] in E |- *. apply Z.ltb_ge in E.
    destruct (Z.eqb_spec (lanesCrossed c) (Z.of_nat i)); [lia | reflexivity]. }
  rewrite Hz.
  destruct (Nat.ltb_spec i (Z.to_nat (lanesCrossed c)));
    destruct (Z.ltb_spec (Z.of_nat i) (lanesCrossed c)); try lia;
    destruct r; cbn; f_equal; lia.
Qed.

Lemma recordCrossing_outOfRange ld c :
  length ld = Z.to_nat (maxLanes cfg) -> 0 <= maxLanes cfg ->
  inRange cfg c = false -> recordCrossing cfg ld c = None.
Proof.
intros Hlen Hmax Hc.
assert (Hbad : maxLanes cfg < lanesCrossed c \/
               (outcome c = "hit" /\ lanesCrossed c < 0)).
{ destruct (Z.le_gt_cases (lanesCrossed c) (maxLanes cfg)) as [Hle|]; [|left; lia].
  right. destruct (decide (outcome c = "hit")) as [Eh|Eh].
  - split; [exact Eh|]. destruct (Z.lt_ge_cases (lanesCrossed c) 0); [assumption|].
    assert (inRange cfg c = true) by (apply inRange_true; split; [lia | intros; lia]).
    congruence.
  - assert (inRange cfg c = true) by (apply inRange_true; tauto). congruence. }
unfold recordCrossing, crossedLanes. rewrite lanes_loop.
destruct Hbad as [Hbig|[Eh Hneg]].
- destruct (decide _) as [Hn|_]; [lia | reflexivity].
- destruct (decide _) as [_|Hn]; [|reflexivity]. cbn [mbind option_bind].
  rewrite Eh. cbn [String.eqb Ascii.eqb Bool.eqb andb].
  destruct (Z.ltb_spec (lanesCrossed c) (maxLanes cfg)); [|lia].
  destruct (Z.ltb_spec (lanesCrossed c) 0); [reflexivity | lia].
Qed.

Lemma recordAll_cons c cs ld :
  recordAll cfg (c :: cs) ld
  = match recordCrossing cfg ld c with
    | Some ld1 => recordAll cfg cs ld1
    | None => None
    end.
Proof.
unfold recordAll. cbn [foldl mbind option_bind].
destruct (recordCrossing cfg ld c); [reflexivity | apply thrown_stays].
Qed.

Lemma recordAll_inRange cs : forall ld,
  length ld = Z.to_nat (maxLanes cfg) -> forallb (inRange cfg) cs = true ->
  recordAll cfg cs ld = Some (imap (seen cs) ld).
Proof.
induction cs as [|c cs IH]; intros ld Hlen Hcs.
- cbn. f_equal. apply list_eq. intros i. rewrite list_lookup_imap.
  destruct (ld !! i) as [r|]; [|reflexivity]. cbn. unfold seen.
  destruct r; cbn. unfold crossedBeyond, hitAt. cbn. f_equal; f_equal; lia.
- cbn [forallb] in Hcs. apply andb_prop in Hcs as [Hc Hcs].
  rewrite recordAll_cons, (recordCrossing_inRange ld c Hlen Hc).
  rewrite IH by (rewrite ?length_imap; assumption).
  f_equal. apply list_eq. intros i. rewrite !list_lookup_imap.
  destruct (ld !! i) as [r|]; [|reflexivity]. cbn. now rewrite seen_cons.
Qed.

Lemma recordAll_outOfRange cs : forall ld,
  length ld = Z.to_nat (maxLanes cfg) -> 0 <= maxLanes cfg ->
  forallb (inRange cfg) cs = false -> recordAll cfg cs ld = None.
Proof.
induction cs as [|c cs IH]; intros ld Hlen Hmax Hcs; [discriminate|].
cbn [forallb] in Hcs. rewrite recordAll_cons.
destruct (inRange cfg c) eqn:Hc.
- rewrite (recordCrossing_inRange ld c Hlen Hc).
  apply IH; rewrite ?length_imap; assumption.
- now rewrite (recordCrossing_outOfRange ld c Hlen Hmax Hc).
Qed.

Lemma length_emptyLaneData : length (emptyLaneData cfg) = Z.to_nat (maxLanes cfg).
Proof. unfold emptyLaneData. now rewrite length_map, length_seq. Qed.

Lemma lookup_emptyLaneData i :
  (i < Z.to_nat (maxLanes cfg))%nat ->
  emptyLaneData cfg !! i
  = Some (mkLaneDatum (Z.of_nat i + 1) ("Lane " +:+ pretty (Z.of_nat i + 1)) 0 0 0).
Proof.
intros Hi. unfold emptyLaneData.
change (map ?f ?l) with (f <$> l). rewrite list_lookup_fmap.
now rewrite lookup_seq_lt.
Qed.

(** The hook on crossings that are all in range. *)
Lemma useLaneAnalytics_inRange c cs :
  forallb (inRange cfg) (c :: cs) = true ->
  exists a, useLaneAnalytics cfg (Some (c :: cs)) = Some (Some a) /\
            laneData a = map withRate (imap (seen (c :: cs)) (emptyLaneData cfg)) /\
            totalCrossings a = length (c :: cs) /\
            successfulCrossings a = length (filter isCrossed (c :: cs)) /\
            avgLanesCrossed a
            = (inject_Z (totalLanes (c :: cs)) / inject_Z (Z.of_nat (length (c :: cs))))%Q.
Proof.
intros H. unfold useLaneAnalytics.
rewrite (recordAll_inRange (c :: cs) _ length_emptyLaneData H).
cbn [mbind option_bind]. eexists. split; [reflexivity|]. now repeat split.
Qed.

Lemma lookup_laneData c cs i :
  (i < Z.to_nat (maxLanes cfg))%nat ->
  map withRate (imap (seen (c :: cs)) (emptyLaneData cfg)) !! i
  = Some (withRate (mkLaneDatum (Z.of_nat i + 1) ("Lane " +:+ pretty (Z.of_nat i + 1))
                      (crossedBeyond i (c :: cs) + hitAt i (c :: cs))
                      (crossedBeyond i (c :: cs)) 0)).
Proof.
intros Hi. change (map ?f ?l) with (f <$> l).
rewrite list_lookup_fmap, list_lookup_imap, (lookup_emptyLaneData i Hi).
reflexivity.
Qed.

(** Whoever attempts lane [i + 2] has crossed lane [i + 1]. *)
Lemma funnel_count i cs :
  (crossedBeyond (S i) cs + hitAt (S i) cs <= crossedBeyond i cs)%nat /\
  (crossedBeyond (S i) cs <= crossedBeyond i cs)%nat.
Proof.
induction cs as [|c cs [IH1 IH2]]; [cbn; lia|].
rewrite !crossedBeyond_cons, hitAt_cons.
destruct (Z.ltb_spec (Z.of_nat (S i)) (lanesCrossed c));
  destruct (Z.ltb_spec (Z.of_nat i) (lanesCrossed c));
  destruct (Z.eqb_spec (lanesCrossed c) (Z.of_nat (S i)));
  destruct ((outcome c =? "hit")%string); cbn [andb]; lia.
Qed.

Lemma percentage_range (s a : nat) :
  (s <= a)%nat -> (0 < a)%nat ->
  (0 <= percentage s a)%Q /\ (percentage s a <= 100)%Q.
Proof.
intros Hsa Ha. unfold percentage.
assert (Hpos : (0 < inject_Z (Z.of_nat a))%Q)
  by (change 0%Q with (inject_Z 0); rewrite <- Zlt_Qlt; lia).
assert (H0 : (0 <= inject_Z (Z.of_nat s) / inject_Z (Z.of_nat a))%Q).
{ apply Qle_shift_div_l; [exact Hpos|]. rewrite Qmult_0_l.
  change 0%Q with (inject_Z 0). rewrite <- Zle_Qle. lia. }
assert (H1 : (inject_Z (Z.of_nat s) / inject_Z (Z.of_nat a) <= 1)%Q).
{ apply Qle_shift_div_r; [exact Hpos|]. rewrite Qmult_1_l.
  rewrite <- Zle_Qle. lia. }
set (x := (inject_Z (Z.of_nat s) / inject_Z (Z.of_nat a))%Q) in *.
split; lra.
Qed.

Lemma totalLanes_cons c cs : totalLanes (c :: cs) = lanesCrossed c + totalLanes cs.
Proof.
assert (H : forall l z, foldl (fun sum x => sum + lanesCrossed x) z l
                        = z + foldl (fun sum x => sum + lanesCrossed x) 0 l).
{ induction l as [|x l IH]; intros z; cbn [foldl]; [lia|].
  rewrite (IH (z + lanesCrossed x)), (IH (0 + lanesCrossed x)). lia. }
unfold totalLanes. cbn [foldl]. rewrite H. lia.
Qed.

Lemma sum_below (m n : nat) :
  list_sum (map (fun i => if (i <? m)%nat then 1 else 0)%nat (seq 0 n)) = Nat.min m n.
Proof.
induction n as [|n IH]; [cbn; lia|].
rewrite seq_S, map_app, list_sum_app, IH. change (0 + n)%nat with n.
cbn [map list_sum fold_right].
destruct (Nat.ltb_spec n m); lia.
Qed.

Lemma list_sum_plus (f g : nat -> nat) (l : list nat) :
  list_sum (map (fun i => f i + g i)%nat l)
  = (list_sum (map f l) + list_sum (map g l))%nat.
Proof.
induction l as [|x l IH]; [reflexivity|].
cbn [map list_sum fold_right]. fold (list_sum (map (fun i => f i + g i)%nat l)).
fold (list_sum (map f l)). fold (list_sum (map g l)). lia.
Qed.

Lemma sum_crossedBeyond cs (n : nat) :
  Forall (fun c => 0 <= lanesCrossed c <= Z.of_nat n) cs ->
  Z.of_nat (list_sum (map (fun i => crossedBeyond i cs) (seq 0 n))) = totalLanes cs.
Proof.
induction 1 as [|c cs Hc Hcs IH].
- assert (H0 : forall l, list_sum (map (fun i => crossedBeyond i []) l) = 0%nat)
    by (induction l; [reflexivity | assumption]).
  rewrite H0. reflexivity.
- rewrite totalLanes_cons, <- IH.
  erewrite map_ext; [|intros i; apply crossedBeyond_cons].
  rewrite (list_sum_plus (fun i => if (Z.of_nat i <? lanesCrossed c)%Z then 1%nat else 0%nat)).
  erewrite (map_ext _ (fun i => if (i <? Z.to_nat (lanesCrossed c))%nat then 1 else 0)%nat).
  + rewrite sum_below. lia.
  + intros i. destruct (Z.ltb_spec (Z.of_nat i) (lanesCrossed c));
      destruct (Nat.ltb_spec i (Z.to_nat (lanesCrossed c))); lia.
Qed.

End LaneAnalytics.

(** X13. On a non-empty list of crossings that are all in range the hook
    produces one entry per lane; in entry [i] (lane [i + 1]) [success]
    is the number of crossings that got past that lane, [attempts] is
    that number plus the number of crossings hit in that lane, and
    [successRate] is their ratio in percent, or 0 when nobody attempted
    the lane. *)
Theorem lane_analytics_counts (cfg : GameConfig)
    (cs : list UseLaneAnalytics.Crossing) (i : nat) :
  cs <> [] ->
  forallb (UseLaneAnalytics.inRange cfg) cs = true ->
  (i < Z.to_nat (maxLanes cfg))%nat ->
  exists a r,
    UseLaneAnalytics.useLaneAnalytics cfg (Some cs) = Some (Some a) /\
    length (UseLaneAnalytics.laneData a) = Z.to_nat (maxLanes cfg) /\
    UseLaneAnalytics.totalCrossings a = length cs /\
    UseLaneAnalytics.laneData a !! i = Some r /\
    UseLaneAnalytics.lane r = Z.of_nat i + 1 /\
    UseLaneAnalytics.success r = UseLaneAnalytics.crossedBeyond i cs /\
    UseLaneAnalytics.attempts r
      = (UseLaneAnalytics.crossedBeyond i cs + UseLaneAnalytics.hitAt i cs)%nat /\
    UseLaneAnalytics.successRate r
      = if (0 <? UseLaneAnalytics.attempts r)%nat
        then UseLaneAnalytics.percentage (UseLaneAnalytics.success r)
                                          (UseLaneAnalytics.attempts r)
        else 0%Q.
Proof.
intros Hne Hcs Hi. destruct cs as [|c cs]; [congruence|].
destruct (useLaneAnalytics_inRange cfg c cs Hcs) as (a & Ha & Hld & Ht & _).
eexists a, _. split; [exact Ha|].
split; [rewrite Hld, length_map, length_imap; apply length_emptyLaneData|].
split; [exact Ht|].
split; [rewrite Hld; apply (lookup_laneData cfg c cs i Hi)|].
now repeat split.
Qed.

(** Three crossings under the shipped configuration: one through all
    five lanes, one hit in lane 3, one stopped after lane 1. *)
Lemma lane_analytics_counts_witness :
  let cs := [UseLaneAnalytics.mkCrossing 5 "crossed";
             UseLaneAnalytics.mkCrossing 2 "hit";
             UseLaneAnalytics.mkCrossing 1 "crossed"] in
  exists a r,
    UseLaneAnalytics.useLaneAnalytics gameConfig (Some cs) = Some (Some a) /\
    UseLaneAnalytics.laneData a !! 2%nat = Some r /\
    UseLaneAnalytics.success r = 1%nat /\ UseLaneAnalytics.attempts r = 2%nat.
Proof.
intros cs.
destruct (lane_analytics_counts gameConfig cs 2)
  as (a & r & Ha & _ & _ & Hr & _ & Hs & Hat & _).
- discriminate.
- reflexivity.
- cbn. lia.
- exists a, r. split; [exact Ha|]. split; [exact Hr|].
  split; [rewrite Hs | rewrite Hat]; reflexivity.
Defined.

(** X14. The lanes form a funnel.  In every entry [success] is at most
    [attempts], so the rate lies between 0 and 100; and the attempts
    (hence the successes) of the next lane are at most the successes of
    this lane. *)
Theorem lane_funnel (cfg : GameConfig) (cs : list UseLaneAnalytics.Crossing)
    (a : UseLaneAnalytics.Analytics) (i : nat) (r : UseLaneAnalytics.LaneDatum) :
  forallb (UseLaneAnalytics.inRange cfg) cs = true ->
  UseLaneAnalytics.useLaneAnalytics cfg (Some cs) = Some (Some a) ->
  UseLaneAnalytics.laneData a !! i = Some r ->
  (UseLaneAnalytics.success r <= UseLaneAnalytics.attempts r)%nat /\
  (0 <= UseLaneAnalytics.successRate r)%Q /\
  (UseLaneAnalytics.successRate r <= 100)%Q /\
  match UseLaneAnalytics.laneData a !! S i with
  | Some r' =>
      (UseLaneAnalytics.attempts r' <= UseLaneAnalytics.success r)%nat /\
      (UseLaneAnalytics.success r' <= UseLaneAnalytics.success r)%nat
  | None => True
  end.
Proof.
intros Hcs Ha Hr. destruct cs as [|c cs]; [discriminate Ha|].
destruct (useLaneAnalytics_inRange cfg c cs Hcs) as (a' & Ha' & Hld & _).
assert (a' = a) as -> by congruence.
assert (Hi : (i < Z.to_nat (maxLanes cfg))%nat).
{ apply lookup_lt_Some in Hr.
  rewrite Hld, length_map, length_imap, length_emptyLaneData in Hr. exact Hr. }
rewrite Hld, (lookup_laneData cfg c cs i Hi) in Hr. injection Hr as <-.
unfold UseLaneAnalytics.withRate.
cbn [UseLaneAnalytics.success UseLaneAnalytics.attempts UseLaneAnalytics.successRate].
split; [lia|].
assert (Hrate : (0 <= (if (0 <? UseLaneAnalytics.crossedBeyond i (c :: cs)
                                + UseLaneAnalytics.hitAt i (c :: cs))%nat
                       then UseLaneAnalytics.percentage
                              (UseLaneAnalytics.crossedBeyond i (c :: cs))
                              (UseLaneAnalytics.crossedBeyond i (c :: cs)
                               + UseLaneAnalytics.hitAt i (c :: cs))
                       else 0) <= 100)%Q).
{ destruct (Nat.ltb_spec 0 (UseLaneAnalytics.crossedBeyond i (c :: cs)
                            + UseLaneAnalytics.hitAt i (c :: cs))) as [Hpos|_].
  - apply percentage_range; lia.
  - split; discriminate. }
split; [apply Hrate|]. split; [apply Hrate|].
destruct (UseLaneAnalytics.laneData a !! S i) as [r'|] eqn:Hr'; [|exact I].
assert (Hi' : (S i < Z.to_nat (maxLanes cfg))%nat).
{ apply lookup_lt_Some in Hr'.
  rewrite Hld, length_map, length_imap, length_emptyLaneData in Hr'. exact Hr'. }
rewrite Hld, (lookup_laneData cfg c cs (S i) Hi') in Hr'. injection Hr' as <-.
cbn [UseLaneAnalytics.withRate UseLaneAnalytics.success UseLaneAnalytics.attempts].
destruct (funnel_count i (c :: cs)). split; lia.
Qed.

(** The same three crossings: lane 2 against lane 3. *)
Lemma lane_funnel_witness :
  let cs := [UseLaneAnalytics.mkCrossing 5 "crossed";
             UseLaneAnalytics.mkCrossing 2 "hit";
             UseLaneAnalytics.mkCrossing 1 "crossed"] in
  exists a r,
    UseLaneAnalytics.useLaneAnalytics gameConfig (Some cs) = Some (Some a) /\
    UseLaneAnalytics.laneData a !! 1%nat = Some r /\
    (UseLaneAnalytics.success r <= UseLaneAnalytics.attempts r)%nat /\
    (UseLaneAnalytics.successRate r <= 100)%Q.
Proof.
intros cs. eexists _, _.
split; [reflexivity|]. split; [reflexivity|].
edestruct (lane_funnel gameConfig cs _ 1 _ eq_refl eq_refl eq_refl)
  as (H1 & _ & H2 & _).
split; [exact H1 | exact H2].
Defined.

Section LaneTotals.
Import UseLaneAnalytics.
Variable cfg : GameConfig.

Lemma success_laneData c cs :
  map success (map withRate (imap (seen (c :: cs)) (emptyLaneData cfg)))
  = map (fun i => crossedBeyond i (c :: cs)) (seq 0 (Z.to_nat (maxLanes cfg))).
Proof.
apply list_eq. intros i.
destruct (decide (i < Z.to_nat (maxLanes cfg))%nat) as [Hi|Hi].
- change (map success ?l) with (success <$> l).
  rewrite list_lookup_fmap, (lookup_laneData cfg c cs i Hi).
  change (map ?f ?l) with (f <$> l).
  rewrite list_lookup_fmap, lookup_seq_lt by exact Hi. reflexivity.
- rewrite !lookup_ge_None_2; [reflexivity| |].
  + rewrite length_map, length_seq. lia.
  + rewrite !length_map, length_imap, length_emptyLaneData. lia.
Qed.

Lemma within_inRange cs :
  Forall (fun c => 0 <= lanesCrossed c <= maxLanes cfg) cs ->
  forallb (inRange cfg) cs = true.
Proof.
induction 1 as [|c cs Hc _ IH]; [reflexivity|].
cbn [forallb]. rewrite IH, andb_true_r. apply inRange_true. split; [lia|intros; lia].
Qed.

End LaneTotals.

(** X15. Lanes are conserved.  When every crossing has between 0 and
    [maxLanes] lanes, the per-lane [success] counters add up to the
    total number of lanes crossed, and [avgLanesCrossed] is that sum
    divided by the number of crossings. *)
Theorem lanes_crossed_conserved (cfg : GameConfig)
    (cs : list UseLaneAnalytics.Crossing) (a : UseLaneAnalytics.Analytics) :
  Forall (fun c => 0 <= UseLaneAnalytics.lanesCrossed c <= maxLanes cfg) cs ->
  UseLaneAnalytics.useLaneAnalytics cfg (Some cs) = Some (Some a) ->
  Z.of_nat (list_sum (map UseLaneAnalytics.success (UseLaneAnalytics.laneData a)))
  = UseLaneAnalytics.totalLanes cs /\
  UseLaneAnalytics.avgLanesCrossed a
  = (inject_Z (Z.of_nat (list_sum (map UseLaneAnalytics.success
                                       (UseLaneAnalytics.laneData a))))
     / inject_Z (Z.of_nat (UseLaneAnalytics.totalCrossings a)))%Q.
Proof.
intros Hcs Ha. destruct cs as [|c cs]; [discriminate Ha|].
destruct (useLaneAnalytics_inRange cfg c cs (within_inRange cfg _ Hcs))
  as (a' & Ha' & Hld & Ht & _ & Havg).
assert (a' = a) as -> by congruence.
assert (Hsum : Z.of_nat (list_sum (map UseLaneAnalytics.success
                                       (UseLaneAnalytics.laneData a)))
               = UseLaneAnalytics.totalLanes (c :: cs)).
{ rewrite Hld, success_laneData. apply sum_crossedBeyond.
  assert (Hmax : 0 <= maxLanes cfg) by (inversion Hcs; subst; lia).
  rewrite Z2Nat.id by exact Hmax. exact Hcs. }
split; [exact Hsum|]. now rewrite Hsum, Ht, Havg.
Qed.

(** Three crossings of 5, 2 and 1 lanes: eight lanes in all. *)
Lemma lanes_crossed_conserved_witness :
  let cs := [UseLaneAnalytics.mkCrossing 5 "crossed";
             UseLaneAnalytics.mkCrossing 2 "hit";
             UseLaneAnalytics.mkCrossing 1 "crossed"] in
  exists a,
    UseLaneAnalytics.useLaneAnalytics gameConfig (Some cs) = Some (Some a) /\
    Z.of_nat (list_sum (map UseLaneAnalytics.success (UseLaneAnalytics.laneData a)))
    = 8.
Proof.
intros cs. eexists. split; [reflexivity|].
refine (proj1 (lanes_crossed_conserved gameConfig cs _ _ eq_refl)).
repeat constructor; cbn; lia.
Defined.

(** X16. The effect throws exactly when some crossing is out of range.
    With a non-negative [maxLanes], the hook fails on a list if and only
    if one of its crossings has more than [maxLanes] lanes, or is a hit
    with a negative lane count; nothing is thrown for a missing or an
    empty list, which reset the analytics to null. *)
Theorem lane_analytics_throws (cfg : GameConfig)
    (cs : list UseLaneAnalytics.Crossing) :
  0 <= maxLanes cfg ->
  (UseLaneAnalytics.useLaneAnalytics cfg (Some cs) = None <->
   exists c, c ∈ cs /\
     (maxLanes cfg < UseLaneAnalytics.lanesCrossed c \/
      (UseLaneAnalytics.outcome c = "hit" /\ UseLaneAnalytics.lanesCrossed c < 0))) /\
  UseLaneAnalytics.useLaneAnalytics cfg None = Some None /\
  UseLaneAnalytics.useLaneAnalytics cfg (Some []) = Some None.
Proof.
intros Hmax. split; [|split; reflexivity].
assert (Hall : forallb (UseLaneAnalytics.inRange cfg) cs = false <->
  exists c, c ∈ cs /\
     (maxLanes cfg < UseLaneAnalytics.lanesCrossed c \/
      (UseLaneAnalytics.outcome c = "hit" /\ UseLaneAnalytics.lanesCrossed c < 0))).
{ induction cs as [|c cs IH].
  - split; [discriminate|]. intros (c & Hc & _). inversion Hc.
  - cbn [forallb]. rewrite andb_false_iff, IH. split.
    + intros [Hc|(c' & Hin & Hbad)].
      * exists c. split; [left|].
        destruct (Z.le_gt_cases (UseLaneAnalytics.lanesCrossed c) (maxLanes cfg));
          [|left; lia].
        right. destruct (decide (UseLaneAnalytics.outcome c = "hit")) as [Eh|Eh].
        -- split; [exact Eh|].
           destruct (Z.lt_ge_cases (UseLaneAnalytics.lanesCrossed c) 0); [assumption|].
           assert (UseLaneAnalytics.inRange cfg c = true)
             by (apply inRange_true; split; [lia | intros; lia]).
           congruence.
        -- assert (UseLaneAnalytics.inRange cfg c = true)
             by (apply inRange_true; tauto).
           congruence.
      * exists c'. split; [right; exact Hin | exact Hbad].
    + intros (c' & Hin & Hbad). apply elem_of_cons in Hin as [->|Hin].
      * left. destruct (UseLaneAnalytics.inRange cfg c) eqn:Hc; [|reflexivity].
        apply inRange_true in Hc. destruct Hc as [H1 H2].
        destruct Hbad as [?|[Eh ?]]; [lia | specialize (H2 Eh); lia].
      * right. exists c'. split; assumption. }
rewrite <- Hall. clear Hall.
destruct (forallb (UseLaneAnalytics.inRange cfg) cs) eqn:Hcs.
- split; [|discriminate]. destruct cs as [|c cs]; [discriminate|].
  destruct (useLaneAnalytics_inRange cfg c cs Hcs) as (a & Ha & _). congruence.
- split; [reflexivity|]. intros _. destruct cs as [|c cs]; [discriminate Hcs|].
  unfold UseLaneAnalytics.useLaneAnalytics.
  now rewrite (recordAll_outOfRange cfg (c :: cs) _ (length_emptyLaneData cfg) Hmax Hcs).
Qed.

(** A crossing that reports six lanes under the shipped five-lane
    configuration. *)
Lemma lane_analytics_throws_witness :
  UseLaneAnalytics.useLaneAnalytics gameConfig
    (Some [UseLaneAnalytics.mkCrossing 1 "crossed";
           UseLaneAnalytics.mkCrossing 6 "crossed"]) = None.
Proof.
apply (lane_analytics_throws gameConfig); [cbn; lia|].
eexists. split; [right; left|]. left. cbn. lia.
Defined.

(** X17. [formatTimeAgo] in milliseconds.  The nested roundings compose:
    anything younger than five seconds (a timestamp in the future
    included) is "just now", and from there on the label is the elapsed
    time divided by the length of the largest unit that fits, rounded
    down, until a week has passed and the calendar date is shown. *)
Theorem time_ago_units (elapsed : Z) :
  Formatters.formatTimeAgo elapsed =
  if elapsed <? 5000 then Formatters.Text "just now"
  else if elapsed <? 60000
       then Formatters.Text (pretty (elapsed / 1000) +:+ "s ago")
  else if elapsed <? 3600000
       then Formatters.Text (pretty (elapsed / 60000) +:+ "m ago")
  else if elapsed <? 86400000
       then Formatters.Text (pretty (elapsed / 3600000) +:+ "h ago")
  else if elapsed <? 604800000
       then Formatters.Text (pretty (elapsed / 86400000) +:+ "d ago")
  else Formatters.LocaleDate.
Proof.
unfold Formatters.formatTimeAgo. cbv zeta.
rewrite !Z.div_div by lia.
change (1000 * 60) with 60000. change (60000 * 60) with 3600000.
change (3600000 * 24) with 86400000.
assert (Hlt : forall d k, 0 < d -> (elapsed / d <? k) = (elapsed <? k * d)).
{ intros d k Hd. destruct (Z.ltb_spec (elapsed / d) k) as [H|H];
    destruct (Z.ltb_spec elapsed (k * d)) as [H'|H']; try reflexivity; exfalso.
  - assert (k <= elapsed / d) by (apply Z.div_le_lower_bound; lia). lia.
  - assert (elapsed / d < k) by (apply Z.div_lt_upper_bound; lia). lia. }
rewrite !Hlt by lia.
reflexivity.
Qed.

Section Strings.
Import Formatters.

Lemma substring_prefix (m : Z) (s : JsString) :
  substring 0 m s = take (Z.to_nat m) s.
Proof.
unfold substring. cbv zeta.
set (len := Z.of_nat (length s)).
assert (Hlen : 0 <= len) by (unfold len; lia).
replace (Z.min (Z.max 0 0) len) with 0 by lia.
replace (Z.min 0 (Z.min (Z.max m 0) len)) with 0 by lia.
replace (Z.max 0 (Z.min (Z.max m 0) len) - 0) with (Z.min (Z.max m 0) len) by lia.
change (drop (Z.to_nat 0) s) with s.
destruct (Z.le_gt_cases m len) as [Hm|Hm].
- f_equal. lia.
- rewrite !take_ge; [reflexivity | unfold len in *; lia | unfold len in *; lia].
Qed.

Lemma substring_suffix (k : nat) (s : JsString) :
  (k <= length s)%nat ->
  substringFrom (Z.of_nat (length s) - Z.of_nat k) s = drop (length s - k) s.
Proof.
intros Hk. unfold substringFrom, substring. cbv zeta.
set (len := Z.of_nat (length s)).
replace (Z.min (Z.max (len - Z.of_nat k) 0) len) with (len - Z.of_nat k)
  by (unfold len; lia).
replace (Z.min (Z.max len 0) len) with len by lia.
replace (Z.min (len - Z.of_nat k) len) with (len - Z.of_nat k) by lia.
replace (Z.to_nat (len - Z.of_nat k)) with (length s - k)%nat by (unfold len; lia).
apply take_ge. rewrite length_drop. unfold len. lia.
Qed.

Lemma length_ellipsis : length ellipsis = 3%nat.
Proof. reflexivity. Qed.

End Strings.

(** X18. [truncateText] is idempotent, keeps the first [maxLength]
    characters of the text, and returns at most [maxLength + 3]
    characters: the ellipsis comes on top of the limit. *)
Theorem truncateText_idempotent (text : Formatters.JsString) (maxLength : Z) :
  Formatters.truncateText (Formatters.truncateText text maxLength) maxLength
  = Formatters.truncateText text maxLength /\
  take (Z.to_nat maxLength) (Formatters.truncateText text maxLength)
  = take (Z.to_nat maxLength) text /\
  (length (Formatters.truncateText text maxLength) <= Z.to_nat maxLength + 3)%nat /\
  (Z.of_nat (length text) <= maxLength ->
   Formatters.truncateText text maxLength = text) /\
  (0 <= maxLength < Z.of_nat (length text) ->
   length (Formatters.truncateText text maxLength) = (Z.to_nat maxLength + 3)%nat).
Proof.
destruct ((length text =? 0)%nat || (Z.of_nat (length text) <=? maxLength)) eqn:E.
- assert (Hr : Formatters.truncateText text maxLength = text)
    by (unfold Formatters.truncateText; now rewrite E).
  rewrite !Hr. split; [reflexivity|]. split; [reflexivity|].
  apply orb_true_iff in E. rewrite Nat.eqb_eq, Z.leb_le in E.
  split; [lia|]. split; [reflexivity|]. lia.
- assert (Hr : Formatters.truncateText text maxLength
               = take (Z.to_nat maxLength) text ++ Formatters.ellipsis)
    by (unfold Formatters.truncateText; now rewrite E, substring_prefix).
  apply orb_false_iff in E. rewrite Nat.eqb_neq, Z.leb_gt in E. destruct E as [E0 Em].
  assert (Hlen : length (take (Z.to_nat maxLength) text) = Z.to_nat maxLength)
    by (rewrite length_take; lia).
  rewrite !Hr. split.
  + unfold Formatters.truncateText.
    rewrite length_app, Hlen, length_ellipsis.
    replace ((Z.to_nat maxLength + 3 =? 0)%nat) with false
      by (symmetry; apply Nat.eqb_neq; lia).
    replace (Z.of_nat (Z.to_nat maxLength + 3) <=? maxLength) with false
      by (symmetry; apply Z.leb_gt; lia).
    cbn [orb]. rewrite substring_prefix. f_equal.
    now rewrite take_app_length' by (symmetry; exact Hlen).
  + split; [now rewrite take_app_length' by (symmetry; exact Hlen)|].
    rewrite length_app, Hlen, length_ellipsis.
    split; [lia|]. split; [lia | reflexivity].
Qed.

(** X19. A formatted round id has at most thirteen characters, and
    formatting it again changes nothing.  An id of more than twelve
    characters is shown as its first six and its last four around an
    ellipsis. *)
Theorem formatRoundId_bounded (roundId : Formatters.JsString) :
  (length (Formatters.formatRoundId roundId) <= 13)%nat /\
  Formatters.formatRoundId (Formatters.formatRoundId roundId)
  = Formatters.formatRoundId roundId /\
  ((12 < length roundId)%nat ->
   Formatters.formatRoundId roundId
   = take 6 roundId ++ Formatters.ellipsis ++ drop (length roundId - 4) roundId).
Proof.
assert (Hlong : forall s : Formatters.JsString, (12 < length s)%nat ->
   Formatters.formatRoundId s
   = take 6 s ++ Formatters.ellipsis ++ drop (length s - 4) s).
{ intros s H. unfold Formatters.formatRoundId.
  replace ((length s =? 0)%nat) with false by (symmetry; apply Nat.eqb_neq; lia).
  replace (Z.of_nat (length s) <=? 12) with false by (symmetry; apply Z.leb_gt; lia).
  rewrite substring_prefix.
  change 4 with (Z.of_nat 4). rewrite substring_suffix by lia. reflexivity. }
assert (Hshort : forall s : Formatters.JsString,
   (0 < length s <= 12)%nat -> Formatters.formatRoundId s = s).
{ intros s H. unfold Formatters.formatRoundId.
  replace ((length s =? 0)%nat) with false by (symmetry; apply Nat.eqb_neq; lia).
  replace (Z.of_nat (length s) <=? 12) with true by (symmetry; apply Z.leb_le; lia).
  reflexivity. }
destruct (Nat.lt_ge_cases 12 (length roundId)) as [H|H].
- rewrite (Hlong roundId H).
  assert (H6 : length (take 6 roundId) = 6%nat) by (rewrite length_take; lia).
  assert (H4 : length (drop (length roundId - 4) roundId) = 4%nat)
    by (rewrite length_drop; lia).
  assert (Hl : length (take 6 roundId ++ Formatters.ellipsis
                       ++ drop (length roundId - 4) roundId) = 13%nat)
    by (rewrite !length_app, H6, H4; reflexivity).
  split; [lia|]. split; [|reflexivity].
  rewrite Hlong by lia. rewrite Hl.
  rewrite take_app_length' by (symmetry; exact H6).
  change (13 - 4)%nat with (6 + 3)%nat.
  rewrite drop_app_add' by (symmetry; exact H6).
  rewrite drop_app_length' by reflexivity. reflexivity.
- destruct (decide (length roundId = 0%nat)) as [H0|H0].
  + unfold Formatters.formatRoundId at 1 3 4. rewrite H0. cbn [Nat.eqb].
    split; [cbn; lia|]. split; [reflexivity | lia].
  + rewrite (Hshort roundId) by lia. split; [lia|].
    split; [apply Hshort; lia | lia].
Qed.

Section Settling.

(** Updates that commute pairwise can be applied in any order. *)
Lemma commuting_updates {S : Type} (us vs : list (S -> S)) :
  us ≡ₚ vs ->
  (forall u v, u ∈ us -> v ∈ us -> forall s, u (v s) = v (u s)) ->
  forall s, foldl (fun s u => u s) s us = foldl (fun s u => u s) s vs.
Proof.
induction 1 as [|x l l' Hp IH|x y l|l l' l'' Hp1 IH1 Hp2 IH2]; intros Hc s.
- reflexivity.
- cbn [foldl]. apply IH. intros u v Hu Hv. apply Hc; now right.
- cbn [foldl]. f_equal. apply Hc; [right; left | left].
- rewrite IH1 by exact Hc. apply IH2.
  intros u v Hu Hv. apply Hc; now rewrite Hp1.
Qed.

Context {LaneStats History : Type}.

Lemma fetchStats_fetchLaneStats fs fl (st : UseStats.State LaneStats History) :
  UseStats.fetchStats fs (UseStats.fetchLaneStats fl st)
  = UseStats.fetchLaneStats fl (UseStats.fetchStats fs st).
Proof.
unfold UseStats.fetchStats, UseStats.fetchLaneStats.
destruct (UseStats.decode fs), (UseStats.decode fl); reflexivity.
Qed.

Lemma fetchStats_fetchHistory fs fh (st : UseStats.State LaneStats History) :
  UseStats.fetchStats fs (UseStats.fetchHistory fh st)
  = UseStats.fetchHistory fh (UseStats.fetchStats fs st).
Proof.
unfold UseStats.fetchStats, UseStats.fetchHistory.
destruct (UseStats.decode fs), (UseStats.decode fh); reflexivity.
Qed.

Lemma fetchLaneStats_fetchHistory fl fh (st : UseStats.State LaneStats History) :
  UseStats.fetchLaneStats fl (UseStats.fetchHistory fh st)
  = UseStats.fetchHistory fh (UseStats.fetchLaneStats fl st).
Proof.
unfold UseStats.fetchLaneStats, UseStats.fetchHistory.
destruct (UseStats.decode fl), (UseStats.decode fh); reflexivity.
Qed.

End Settling.

(** X20. The three requests of [refetch] may settle in any order.  Each
    writes cells the others leave alone, so whichever order the
    responses of [Promise.all] arrive in, the state after [refetch] is
    the same. *)
Theorem refetch_order_independent {LaneStats History : Type}
    (fs : UseStats.Fetched UseStats.Stats) (fl : UseStats.Fetched LaneStats)
    (fh : UseStats.Fetched (list History))
    (settled : list (UseStats.State LaneStats History -> UseStats.State LaneStats History))
    (st : UseStats.State LaneStats History) :
  settled ≡ₚ [UseStats.fetchStats fs; UseStats.fetchLaneStats fl;
              UseStats.fetchHistory fh] ->
  UseStats.setLoading false
    (foldl (fun s u => u s) (UseStats.setLoading true st) settled)
  = UseStats.refetch fs fl fh st.
Proof.
intros Hp. unfold UseStats.refetch. f_equal.
rewrite (commuting_updates _ _ Hp); [reflexivity|].
intros u v Hu Hv s. rewrite Hp in Hu, Hv.
repeat (apply elem_of_cons in Hu as [->|Hu]);
  repeat (apply elem_of_cons in Hv as [->|Hv]);
  try (now apply elem_of_nil in Hu); try (now apply elem_of_nil in Hv);
  try reflexivity;
  auto using fetchStats_fetchLaneStats, fetchStats_fetchHistory,
             fetchLaneStats_fetchHistory.
Qed.

(** The history arrives first and the statistics last. *)
Lemma refetch_order_independent_witness :
  let fs := UseStats.Rejected "Failed to fetch" in
  let fl := UseStats.Resolved (UseStats.mkResponse true "200" (inr 7%nat)) in
  let fh := UseStats.Resolved (UseStats.mkResponse true "200" (inr [1%nat; 2%nat])) in
  UseStats.setLoading false
    (UseStats.fetchStats fs
       (UseStats.fetchLaneStats fl
          (UseStats.fetchHistory fh (UseStats.setLoading true UseStats.initial))))
  = UseStats.refetch fs fl fh UseStats.initial.
Proof.
intros fs fl fh.
apply (refetch_order_independent fs fl fh
         [UseStats.fetchHistory fh; UseStats.fetchLaneStats fl; UseStats.fetchStats fs]).
eapply perm_trans; [apply perm_swap|].
eapply perm_trans; [apply perm_skip, perm_swap|].
apply perm_swap.
Defined.

Section Simulator.
Import RoadCrossingSimulator.
Variable rtp : Q.


(** Entry [k] of the table, counted from the state of the loop. *)
Lemma laneLoop_lookup b s n :
  ~ s == 0 -> forall k l c, ~ c == 0 -> (k < n)%nat ->
  exists entry,
    laneLoop rtp b s n l c !! k = Some entry /\
    lane entry = l + Z.of_nat k /\
    probability entry == 100 * c * s ^ (Z.of_nat k + 1) /\
    probability entry * multiplier entry == rtp /\
    laneProfit entry = (b * (multiplier entry - 1))%Q /\
    laneSurvival entry = (s * 100)%Q.
Proof.
intros Hs. induction n as [|n IH]; intros k l c Hc Hk; [lia|].
assert (Hcs : ~ c * s == 0).
{ intros H. apply Qmult_integral in H. tauto. }
destruct k as [|k].
- eexists. split; [reflexivity|]. cbn [lane probability multiplier laneProfit laneSurvival].
  split; [lia|]. split; [change (Z.of_nat 0 + 1) with 1; rewrite Qpower_1_r; ring|].
  split; [field; split; assumption|]. split; reflexivity.
- destruct (IH k (l + 1) (c * s)%Q Hcs ltac:(lia))
    as (entry & He & Hl & Hp & Hm & Hrest).
  exists entry. split; [exact He|]. split; [lia|]. split; [|split; assumption].
  rewrite Hp.
  replace (Z.of_nat (S k) + 1) with (1 + (Z.of_nat k + 1)) by lia.
  rewrite (Qpower_plus s 1 _ Hs), Qpower_1_r. ring.
Qed.

Lemma tableSurvivalRate_positive c : (0 < tableSurvivalRate c)%Q.
Proof.
unfold tableSurvivalRate. destruct (c <=? 3); [reflexivity|].
destruct (c <=? 6); reflexivity.
Qed.

Lemma tableSurvivalRate_nonzero c : ~ tableSurvivalRate c == 0.
Proof. pose proof (tableSurvivalRate_positive c). lra. Qed.

(** The table has an entry for every lane of the road. *)
Lemma row_lookup st i :
  0 <= i < lanes st ->
  exists entry,
    row rtp st i = Some entry /\
    lane entry = i + 1 /\
    probability entry == 100 * tableSurvivalRate (currentLane st) ^ (i + 1) /\
    probability entry * multiplier entry == rtp /\
    laneProfit entry = (betAmount st * (multiplier entry - 1))%Q.
Proof.
intros Hi. unfold row, laneData.
replace (i <? 0) with false by (symmetry; apply Z.ltb_ge; lia).
destruct (laneLoop_lookup (betAmount st) _ (Z.to_nat (lanes st))
            (tableSurvivalRate_nonzero (currentLane st)) (Z.to_nat i) 1 1%Q)
  as (entry & He & Hl & Hp & Hm & Hpr & _); [discriminate | lia |].
exists entry. split; [exact He|]. split; [lia|].
split; [|split; assumption].
rewrite Hp. replace (Z.of_nat (Z.to_nat i) + 1) with (i + 1) by lia. ring.
Qed.

Ltac sim_fields :=
  cbn [lanes currentLane gameState carPositions betAmount stats
       games wins maxLane profit
       setLanes setCurrentLane setGameState setCarPositions setBetAmount setStats
       recordWin recordLoss startGame initial].

Lemma run_cons e es st :
  run rtp (e :: es) st
  = match step rtp e st with Some st' => run rtp es st' | None => None end.
Proof.
unfold run. cbn [foldl mbind option_bind].
destruct (step rtp e st) as [st'|]; [reflexivity|].
induction es as [|e' es IH]; [reflexivity | exact IH].
Qed.

Lemma step_shape e st :
  reachable_shape st ->
  exists st', step rtp e st = Some st' /\ reachable_shape st'.
Proof.
intros (Hl & Hc & Hp & Hi & Hw & Hm). unfold step.
destruct (enabled e st) eqn:En;
  [|exists st; split; [reflexivity | now repeat split]].
unfold enabled, isPlaying in En.
destruct e as [rnd|r| |o|v]; cbn [handle].
- eexists. split; [reflexivity|].
  unfold reachable_shape, startGame. sim_fields.
  destruct (gameState st) eqn:Eg; try discriminate En;
    (repeat split; try lia; try discriminate; intros; lia).
- destruct (gameState st) eqn:Eg; try discriminate En.
  specialize (Hp eq_refl).
  unfold crossLane, isPlaying. rewrite Eg. cbn [negb].
  destruct (lt r (crossSurvivalRate (currentLane st))).
  + destruct (Z.eqb_spec (currentLane st + 1) (lanes st)) as [Hlast|Hmore].
    * destruct (row_lookup st (currentLane st + 1 - 1) ltac:(lia)) as (entry & He & _).
      rewrite He. cbn [mbind option_bind]. eexists. split; [reflexivity|].
      unfold reachable_shape. sim_fields.
      repeat split; try lia; try discriminate.
    * eexists. split; [reflexivity|].
      unfold reachable_shape. sim_fields. rewrite Eg.
      repeat split; try lia; try discriminate.
  + eexists. split; [reflexivity|].
    unfold reachable_shape. sim_fields.
    repeat split; try lia; try discriminate.
- destruct (gameState st) eqn:Eg; try discriminate En.
  specialize (Hp eq_refl). cbn [andb] in En. apply negb_true_iff in En.
  unfold cashOut, isPlaying. rewrite Eg, En. cbn [negb orb].
  destruct (row_lookup st (currentLane st - 1)) as (entry & He & _);
    [apply Z.eqb_neq in En; lia|].
  rewrite He. cbn [mbind option_bind]. eexists. split; [reflexivity|].
  unfold reachable_shape. sim_fields.
  repeat split; try lia; try discriminate.
- eexists. split; [reflexivity|].
  unfold reachable_shape. sim_fields.
  destruct (gameState st) eqn:Eg; try discriminate En;
    (repeat split; try assumption; try lia; try discriminate;
     destruct o; cbn [optionValue]; lia).
- eexists. split; [reflexivity|].
  unfold reachable_shape. sim_fields. now repeat split.
Qed.

Lemma run_shape es : forall st,
  reachable_shape st ->
  exists st', run rtp es st = Some st' /\ reachable_shape st'.
Proof.
induction es as [|e es IH]; intros st Hst.
- exists st. split; [reflexivity | exact Hst].
- rewrite run_cons. destruct (step_shape e st Hst) as (st1 & -> & H1).
  now apply IH.
Qed.

Lemma initial_shape : reachable_shape initial.
Proof. unfold reachable_shape. sim_fields. repeat split; try lia; discriminate. Qed.

End Simulator.

(** X21. The simulator never reads a missing table entry.  Whatever the
    player clicks or types, starting from the initial state, every
    handler returns, and the state it leaves has 5, 7 or 9 lanes, a
    chicken that is short of the last lane while the game is on, at
    least as many games as wins, a best lane of at most 9, and no
    finished game as long as it is idle. *)
Theorem simulator_never_throws (rtp : Q) (es : list RoadCrossingSimulator.Event) :
  exists st,
    RoadCrossingSimulator.run rtp es RoadCrossingSimulator.initial = Some st /\
    RoadCrossingSimulator.reachable_shape st.
Proof. apply run_shape, initial_shape. Qed.


(** X23. The table and the draw disagree at lanes 3 and 6.  The survival
    rate the table displays is the one [crossLane] draws against at
    every position of the chicken except 3 and 6, where the table still
    shows the easier rate. *)
Theorem survival_rates_disagree (currentLane : Z) :
  (RoadCrossingSimulator.tableSurvivalRate currentLane
   == RoadCrossingSimulator.crossSurvivalRate currentLane
   <-> currentLane <> 3 /\ currentLane <> 6) /\
  (RoadCrossingSimulator.crossSurvivalRate currentLane
   <= RoadCrossingSimulator.tableSurvivalRate currentLane)%Q.
Proof.
unfold RoadCrossingSimulator.tableSurvivalRate, RoadCrossingSimulator.crossSurvivalRate.
destruct (Z.leb_spec currentLane 3), (Z.ltb_spec currentLane 3),
         (Z.leb_spec currentLane 6), (Z.ltb_spec currentLane 6);
  try lia;
  (split; [split; [intros Hq; try (split; lia); exfalso; revert Hq; discriminate
                  | intros [? ?]; try reflexivity; lia]
          | discriminate]).
Qed.

(** X24. The statistics change exactly when a game ends.  One event
    adds one to [games] if it takes the game out of [playing] and
    leaves the statistics alone otherwise; [wins] grows with it if the
    game was won, and a lost game costs the bet. *)
Theorem stats_count_finished_games (rtp : Q)
    (e : RoadCrossingSimulator.Event) (st st' : RoadCrossingSimulator.State) :
  RoadCrossingSimulator.step rtp e st = Some st' ->
  RoadCrossingSimulator.games (RoadCrossingSimulator.stats st')
  = RoadCrossingSimulator.games (RoadCrossingSimulator.stats st)
    + (if RoadCrossingSimulator.ended st st' then 1 else 0) /\
  RoadCrossingSimulator.wins (RoadCrossingSimulator.stats st')
  = RoadCrossingSimulator.wins (RoadCrossingSimulator.stats st)
    + (if RoadCrossingSimulator.ended st st' && RoadCrossingSimulator.isWon st'
       then 1 else 0) /\
  (RoadCrossingSimulator.ended st st' = false ->
   RoadCrossingSimulator.stats st' = RoadCrossingSimulator.stats st) /\
  (RoadCrossingSimulator.ended st st' = true ->
   RoadCrossingSimulator.isWon st' = false ->
   RoadCrossingSimulator.profit (RoadCrossingSimulator.stats st')
   = (RoadCrossingSimulator.profit (RoadCrossingSimulator.stats st)
      - RoadCrossingSimulator.betAmount st)%Q).
Proof.
unfold RoadCrossingSimulator.step, RoadCrossingSimulator.enabled,
       RoadCrossingSimulator.ended, RoadCrossingSimulator.isWon,
       RoadCrossingSimulator.isPlaying.
intros Hstep.
destruct e as [rnd|r| |o|v]; cbn [RoadCrossingSimulator.handle] in Hstep;
  unfold RoadCrossingSimulator.crossLane, RoadCrossingSimulator.cashOut,
         RoadCrossingSimulator.isPlaying in Hstep;
  destruct (RoadCrossingSimulator.gameState st) eqn:Eg;
  cbn [negb andb orb] in Hstep;
  repeat match type of Hstep with
         | context [if ?b then _ else _] => destruct b
         | context [RoadCrossingSimulator.row ?r ?s ?i] =>
             destruct (RoadCrossingSimulator.row r s i)
         | _ => progress cbn [mbind option_bind] in Hstep
         end;
  try discriminate Hstep;
  injection Hstep as <-;
  cbn [RoadCrossingSimulator.lanes RoadCrossingSimulator.currentLane
       RoadCrossingSimulator.gameState RoadCrossingSimulator.carPositions
       RoadCrossingSimulator.betAmount RoadCrossingSimulator.stats
       RoadCrossingSimulator.games RoadCrossingSimulator.wins
       RoadCrossingSimulator.maxLane RoadCrossingSimulator.profit
       RoadCrossingSimulator.setLanes RoadCrossingSimulator.setCurrentLane
       RoadCrossingSimulator.setGameState RoadCrossingSimulator.setCarPositions
       RoadCrossingSimulator.setBetAmount RoadCrossingSimulator.setStats
       RoadCrossingSimulator.recordWin RoadCrossingSimulator.recordLoss
       RoadCrossingSimulator.startGame negb andb];
  rewrite ?Eg; cbn [negb andb];
  (split; [lia|]); (split; [lia|]);
  (split; [intros; try reflexivity; discriminate
          | intros; try reflexivity; discriminate]).
Qed.

(** A lost crossing on the first lane of the first game. *)
Lemma stats_count_finished_games_witness :
  let st := RoadCrossingSimulator.setGameState RoadCrossingSimulator.playing
              RoadCrossingSimulator.initial in
  exists st',
    RoadCrossingSimulator.step 96 (RoadCrossingSimulator.ClickCross (9 # 10)) st
    = Some st' /\
    RoadCrossingSimulator.games (RoadCrossingSimulator.stats st') = 1 /\
    RoadCrossingSimulator.profit (RoadCrossingSimulator.stats st') = (0 - 10)%Q.
Proof.
intros st. eexists. split; [reflexivity|].
edestruct (stats_count_finished_games 96
             (RoadCrossingSimulator.ClickCross (9 # 10)) st _ eq_refl)
  as (Hg & _ & _ & Hp).
split; [exact Hg | apply Hp; reflexivity].
Defined.


